(** * Shareable links of the messenger: [go/pkg/bertymessenger/links.go]

    A shallow embedding of [BertyLink.Marshal], [UnmarshalLink] and
    [BertyLink.IsValid], of the base-N codec behind [qrBaseEncoder], and of
    the Go library calls they make.  Go values are modelled as the code has
    them: a [[]byte] is a possibly-nil slice, a pointer is an [option], a
    [(value, error)] pair is a pair with an optional error, and a run-time
    panic (nil dereference, slice out of range) is an explicit outcome. *)

From Stdlib Require Import ZArith List String Ascii Bool Lia.
From Stdlib.Strings Require Import Byte.
From stdpp Require Import gmap strings sorting.
Import ListNotations.

Local Open Scope string_scope.
Local Open Scope Z_scope.

(** ** Go values *)

(** A Go [[]byte]: [None] is the nil slice, [Some []] the empty non-nil one. *)
Definition bytes := option (list byte).

(** What a Go call does: it returns, or it panics. *)
Inductive outcome (A : Type) : Type :=
| Returns (a : A)
| Panics.
Arguments Returns {A} a.
Arguments Panics {A}.

#[global] Instance outcome_bind : MBind outcome := fun A B k m =>
  match m with
  | Returns a => k a
  | Panics => Panics
  end.

(** Dereference of a pointer: nil panics. *)
Definition deref {A} (p : option A) : outcome A :=
  match p with
  | Some a => Returns a
  | None => Panics
  end.

(** The result of a library call that returns [(value, error)]. *)
Inductive result (A : Type) : Type :=
| Ok (a : A)
| Err (msg : string).
Arguments Ok {A} a.
Arguments Err {A} msg.

(** ** The data model

    The record types are generated code ([bertymessenger.pb.go],
    [bertytypes.pb.go]) that is not among the sources; their fields are the
    ones [links.go] reads and writes. *)

(** Modelled from the spec: the [kind] enumeration of section 3, one of
    Unknown, ContactInviteV1, GroupV1, under the names [links.go] uses. *)
Inductive BertyLink_Kind : Set :=
| BertyLink_UnknownKind
| BertyLink_ContactInviteV1Kind
| BertyLink_GroupV1Kind.

(** Modelled from the spec: the [groupType] enumeration of section 3;
    [links.go] names the multi-member type only. *)
Inductive GroupType : Set :=
| GroupTypeUndefined
| GroupTypeAccount
| GroupTypeContact
| GroupTypeMultiMember.

(** Modelled from the spec: the [group] descriptor of section 3, with the
    five fields [Marshal] copies. *)
Record Group : Set := mkGroup {
  PublicKey : bytes;
  Secret : bytes;
  SecretSig : bytes;
  GroupType_ : GroupType;
  SignPub : bytes
}.

(** Modelled from the spec: [contactInfo] of section 3. *)
Record BertyID : Set := mkBertyID {
  PublicRendezvousSeed : bytes;
  AccountPK : bytes;
  ID_DisplayName : string
}.

(** Modelled from the spec: [groupInfo] of section 3. *)
Record BertyGroup : Set := mkBertyGroup {
  Group_ : option Group;
  Group_DisplayName : string
}.

(** Modelled from the spec: the link record of section 3; both sub-records
    are pointers, set or nil whatever the kind. *)
Record BertyLink : Set := mkBertyLink {
  Kind : BertyLink_Kind;
  BertyID_ : option BertyID;
  BertyGroup_ : option BertyGroup
}.

(** The zero values [&BertyLink{}], [&BertyID{}], [&BertyGroup{}]. *)
Definition zeroBertyLink : BertyLink := mkBertyLink BertyLink_UnknownKind None None.
Definition zeroBertyID : BertyID := mkBertyID None None "".
Definition zeroBertyGroup : BertyGroup := mkBertyGroup None "".

Definition Kind_eqb (a b : BertyLink_Kind) : bool :=
  match a, b with
  | BertyLink_UnknownKind, BertyLink_UnknownKind
  | BertyLink_ContactInviteV1Kind, BertyLink_ContactInviteV1Kind
  | BertyLink_GroupV1Kind, BertyLink_GroupV1Kind => true
  | _, _ => false
  end.

Definition GroupType_eqb (a b : GroupType) : bool :=
  match a, b with
  | GroupTypeUndefined, GroupTypeUndefined
  | GroupTypeAccount, GroupTypeAccount
  | GroupTypeContact, GroupTypeContact
  | GroupTypeMultiMember, GroupTypeMultiMember => true
  | _, _ => false
  end.

(** [x == nil] on a slice or a pointer. *)
Definition isNil {A} (p : option A) : bool :=
  match p with
  | None => true
  | Some _ => false
  end.

(** ** Errors ([errcode]) *)

(** Modelled from the spec: the two error kinds of section 7, under the
    names of the package [errcode], which is not among the sources. *)
Inductive ErrCode : Set :=
| ErrMissingInput
| ErrInvalidInput.

(** What an [errcode.Wrap] call wraps. *)
Inductive cause : Set :=
| TooFewParts                          (* "URI should have at least 2 parts" *)
| UnsupportedLinkType (part : string)  (* "unsupported link type: %q" *)
| UnsupportedLinkFormat                (* "unsupported link format" *)
| CantShareGroupType (g : GroupType)   (* "can't share a %q group type" *)
| LibraryError (msg : string).         (* the error of a library call *)

Inductive error : Set :=
| Plain (c : ErrCode)                      (* errcode.ErrX *)
| Wrap (c : ErrCode) (inner : option cause). (* errcode.ErrX.Wrap(inner) *)

Definition Code (e : error) : ErrCode :=
  match e with
  | Plain c => c
  | Wrap c _ => c
  end.

(** ** [BertyLink.IsValid] *)

Definition IsValid (link : option BertyLink) : outcome (option error) :=
  match link with
  | None => Returns (Some (Plain ErrMissingInput))
  | Some link =>
    match Kind link with
    | BertyLink_ContactInviteV1Kind =>
      match BertyID_ link with
      | None => Returns (Some (Plain ErrMissingInput))
      | Some id =>
        if isNil (AccountPK id) || isNil (PublicRendezvousSeed id)
        then Returns (Some (Plain ErrMissingInput))
        else Returns None
      end
    | BertyLink_GroupV1Kind =>
      match BertyGroup_ link with
      | None => Returns (Some (Plain ErrMissingInput))
      | Some bg =>
        g ← deref (Group_ bg);
        let groupType := GroupType_ g in
        if negb (GroupType_eqb groupType GroupTypeMultiMember)
        then Returns (Some (Wrap ErrInvalidInput (Some (CantShareGroupType groupType))))
        else Returns None
      end
    | BertyLink_UnknownKind => Returns (Some (Plain ErrInvalidInput))
    end
  end.

(** ** [BertyLink.IsContact] and [BertyLink.IsGroup]

    [link.Kind] is read first, so a nil receiver panics; [&&] calls
    [IsValid] only when the kind matches. *)

Definition IsContact (link : option BertyLink) : outcome bool :=
  l ← deref link;
  if Kind_eqb (Kind l) BertyLink_ContactInviteV1Kind
  then err ← IsValid link; Returns (isNil err)
  else Returns false.

Definition IsGroup (link : option BertyLink) : outcome bool :=
  l ← deref link;
  if Kind_eqb (Kind l) BertyLink_GroupV1Kind
  then err ← IsValid link; Returns (isNil err)
  else Returns false.

Definition BertyID_GetBertyLink (id : option BertyID) : BertyLink :=
  mkBertyLink BertyLink_ContactInviteV1Kind id None.

Definition BertyGroup_GetBertyLink (group : option BertyGroup) : BertyLink :=
  mkBertyLink BertyLink_GroupV1Kind None group.

(** ** Go's [strings] package

    A Go string is a sequence of bytes, here a [string] of 8-bit [ascii].
    [links.go] calls [Split] and [Join] with the one-byte separators "/" and
    "#" only. *)

Module GoStrings.

Fixpoint HasPrefix (s prefix : string) {struct prefix} : bool :=
  match prefix, s with
  | EmptyString, _ => true
  | String p prefix', String c s' => Ascii.eqb c p && HasPrefix s' prefix'
  | String _ _, EmptyString => false
  end.

Fixpoint Split (s : string) (sep : ascii) : list string :=
  match s with
  | EmptyString => [EmptyString]
  | String c rest =>
    if Ascii.eqb c sep then EmptyString :: Split rest sep
    else match Split rest sep with
         | part :: parts => String c part :: parts
         | [] => [String c EmptyString]
         end
  end.

Fixpoint Join (elems : list string) (sep : ascii) : string :=
  match elems with
  | [] => EmptyString
  | [e] => e
  | e :: rest => e +:+ String sep (Join rest sep)
  end.

(** [s[n:]]: panics when [n] exceeds the length. *)
Definition sliceFrom (s : string) (n : nat) : outcome string :=
  if (String.length s <? n)%nat then Panics
  else Returns (String.substring n (String.length s - n) s).

(** Lower-casing of one ASCII byte. *)
Definition lowerASCII (c : ascii) : ascii :=
  let n := nat_of_ascii c in
  if ((65 <=? n) && (n <=? 90))%nat then ascii_of_nat (n + 32) else c.

Definition isASCII (c : ascii) : bool := (nat_of_ascii c <? 128)%nat.

End GoStrings.

(** ** Bytes and integers *)

Definition byte_to_Z (b : byte) : Z := Z.of_N (Byte.to_N b).

(** The conversion [byte(x)] of an [int]: the low 8 bits. *)
Definition Z_to_byte (x : Z) : byte :=
  match Byte.of_N (Z.to_N (x mod 256)) with
  | Some b => b
  | None => x00
  end.

(** ** The base-N codec ([github.com/eknkc/basex])

    Modelled from the spec: the alphabet-parameterized codec of section 4.1,
    whose source, a library, is not among the sources of the repository.
    The definitions below are its loops: a big-endian byte string is
    converted digit by digit to the base the alphabet defines, and every
    leading zero byte becomes one leading first symbol.  The alphabets in
    use are ASCII, so a rune of the library is one byte here; a byte outside
    ASCII is part of a rune that no alphabet holds. *)

Module Basex.

Record Encoding : Type := mkEncoding {
  base : Z;
  alphabet : list ascii;
  alphabetMap : gmap ascii Z
}.

(** The loop of [NewEncoding]: a rune seen twice makes the alphabet ambiguous. *)
Fixpoint fillMap (runes : list ascii) (i : Z) (runeMap : gmap ascii Z)
  : option (gmap ascii Z) :=
  match runes with
  | [] => Some runeMap
  | r :: rest =>
    match runeMap !! r with
    | Some _ => None
    | None => fillMap rest (i + 1) (<[r := i]> runeMap)
    end
  end.

(** [None] is the [(nil, error)] return. *)
Definition NewEncoding (alphabet : string) : option Encoding :=
  let runes := list_ascii_of_string alphabet in
  match fillMap runes 0 ∅ with
  | None => None
  | Some runeMap => Some (mkEncoding (Z.of_nat (length runes)) runes runeMap)
  end.

(** [for j := 0; j < len(digits); j++ { carry += digits[j] << 8;
    digits[j] = carry % base; carry = carry / base }] *)
Fixpoint encodeDigits (base : Z) (digits : list Z) (carry : Z) : list Z * Z :=
  match digits with
  | [] => ([], carry)
  | d :: rest =>
    let carry := carry + Z.shiftl d 8 in
    let '(rest', carry') := encodeDigits base rest (carry / base) in
    (carry mod base :: rest', carry')
  end.

(** [for carry > 0 { digits = append(digits, carry%base); carry = carry / base }];
    with [2 <= base] the loop ends within [carry] rounds. *)
Fixpoint encodeCarry (fuel : nat) (base : Z) (carry : Z) : list Z :=
  match fuel with
  | O => []
  | S fuel =>
    if 0 <? carry then carry mod base :: encodeCarry fuel base (carry / base)
    else []
  end.

Definition encodeByte (base : Z) (digits : list Z) (b : byte) : list Z :=
  let '(digits', carry) := encodeDigits base digits (byte_to_Z b) in
  digits' ++ encodeCarry (Z.to_nat carry) base carry.

(** [for k := 0; test(l[k]) && k < len(l)-1; k++]: the number of rounds. *)
Fixpoint leading {A} (test : A -> bool) (l : list A) : nat :=
  match l with
  | x :: (_ :: _) as rest => if test x then S (leading test rest) else O
  | _ => O
  end.

Definition isZeroByte (b : byte) : bool := byte_to_Z b =? 0.

Definition symbol (e : Encoding) (d : Z) : ascii :=
  nth (Z.to_nat d) (alphabet e) Ascii.zero.

(** [Encoding.Encode], for an encoding with [2 <= base]. *)
Definition Encode (e : Encoding) (source : list byte) : string :=
  match source with
  | [] => EmptyString
  | _ =>
    let digits := fold_left (encodeByte (base e)) source [0] in
    string_of_list_ascii
      (repeat (symbol e 0) (leading isZeroByte source)
       ++ map (symbol e) (rev digits))
  end.

(** [for j := 0; j < len(bytes); j++ { carry += int(bytes[j]) * base;
    bytes[j] = byte(carry & 0xff); carry >>= 8 }] *)
Fixpoint decodeBytes (base : Z) (bs : list byte) (carry : Z) : list byte * Z :=
  match bs with
  | [] => ([], carry)
  | b :: rest =>
    let carry := carry + byte_to_Z b * base in
    let '(rest', carry') := decodeBytes base rest (Z.shiftr carry 8) in
    (Z_to_byte (Z.land carry 255) :: rest', carry')
  end.

(** [for carry > 0 { bytes = append(bytes, byte(carry&0xff)); carry >>= 8 }] *)
Fixpoint decodeCarry (fuel : nat) (carry : Z) : list byte :=
  match fuel with
  | O => []
  | S fuel =>
    if 0 <? carry
    then Z_to_byte (Z.land carry 255) :: decodeCarry fuel (Z.shiftr carry 8)
    else []
  end.

Definition decodeRune (base : Z) (bs : list byte) (value : Z) : list byte :=
  let '(bs', carry) := decodeBytes base bs value in
  bs' ++ decodeCarry (Z.to_nat carry) carry.

Fixpoint decodeRunes (e : Encoding) (runes : list ascii) (bs : list byte)
  : result (list byte) :=
  match runes with
  | [] => Ok bs
  | r :: rest =>
    match alphabetMap e !! r with
    | None => Err "Non Base Character"
    | Some value => decodeRunes e rest (decodeRune (base e) bs value)
    end
  end.

(** [Encoding.Decode], for an encoding with [2 <= base]. *)
Definition Decode (e : Encoding) (source : string) : result (list byte) :=
  match source with
  | EmptyString => Ok []
  | _ =>
    let runes := list_ascii_of_string source in
    match decodeRunes e runes [x00] with
    | Err msg => Err msg
    | Ok bs =>
      let zeros := leading (Ascii.eqb (symbol e 0)) runes in
      Ok (rev (bs ++ repeat x00 zeros))
    end
  end.

End Basex.

(** ** [links.go]: constants and the QR encoder *)

Definition LinkWebPrefix : string := "https://berty.tech/id#".
Definition LinkInternalPrefix : string := "BERTY://".

(** [var qrBaseEncoder, _ = basex.NewEncoding(...)]: the error is dropped, a
    failure would leave the nil pointer. *)
Definition qrBaseEncoder : option Basex.Encoding :=
  Basex.NewEncoding "ABCDEFGHIJKLMNOPQRSTUVWXYZ0123456789$*-.:/".

(** The alphanumeric mode of the QR standard, as the comment above
    [qrBaseEncoder] lists it: 10 digits, 26 letters, 9 symbols. *)
Definition qrAlphanumericMode : list ascii :=
  list_ascii_of_string "0123456789ABCDEFGHIJKLMNOPQRSTUVWXYZ $%*+-./:".

(** The three characters the comment says are removed: SP, %, +. *)
Definition removedFromQR : list ascii := list_ascii_of_string " %+".

(** ** Go's [net/url]: [url.Values] *)

Module Url.

(** [type Values map[string][]string]; the nil map reads as the empty one. *)
Abbreviation Values := (gmap string (list string)).

Definition Get (v : Values) (key : string) : string :=
  match v !! key with
  | Some (first :: _) => first
  | _ => EmptyString
  end.

Definition Add (v : Values) (key value : string) : Values :=
  <[key := (default [] (v !! key) ++ [value])%list]> v.

(** The one field of [url.URL] that [links.go] reads. *)
Record URL : Set := mkURL { Fragment : string }.

End Url.

(** ** The library calls behind the codec

    [proto.Marshal] and [proto.Unmarshal] on a [BertyLink], [base58.Encode]
    and [base58.Decode], [url.Parse], [url.ParseQuery], [Values.Encode] and
    [strings.ToLower] are collaborators named at their interface only:
    [links.go] is modelled over any implementation of them. *)

Class Externals : Type := {
  proto_Marshal : BertyLink -> result (list byte);
  proto_Unmarshal : list byte -> result BertyLink;
  base58_Encode : list byte -> string;
  base58_Decode : string -> result (list byte);
  url_Parse : string -> result Url.URL;
  url_ParseQuery : string -> result Url.Values;
  Values_Encode : Url.Values -> string;
  strings_ToLower : string -> string
}.

(** A string in which every [%] starts a [%XX] escape. *)
Definition isHex (c : ascii) : bool :=
  let n := nat_of_ascii c in
  ((48 <=? n) && (n <=? 57) || (65 <=? n) && (n <=? 70)
   || (97 <=? n) && (n <=? 102))%nat.

Fixpoint wellEscaped (s : string) : bool :=
  match s with
  | EmptyString => true
  | String c rest =>
    if Ascii.eqb c "%"
    then match rest with
         | String h1 (String h2 rest') => isHex h1 && isHex h2 && wellEscaped rest'
         | _ => false
         end
    else wellEscaped rest
  end.

Definition isAlnum (c : ascii) : bool :=
  let n := nat_of_ascii c in
  ((48 <=? n) && (n <=? 57) || (65 <=? n) && (n <=? 90)
   || (97 <=? n) && (n <=? 122))%nat.

Fixpoint allChars (test : ascii -> bool) (s : string) : bool :=
  match s with
  | EmptyString => true
  | String c rest => test c && allChars test rest
  end.

(** What proto3 keeps of a record.  A bytes field of length zero is not
    written, and a field that is not on the wire is read back as the nil
    slice: an empty slice that is not nil comes back nil.  A sub-message
    that is set is written even when it is empty, and an empty string is
    the zero value of its field, so both come back as they were. *)
Definition nilEmpty (b : bytes) : bytes :=
  match b with
  | Some [] => None
  | _ => b
  end.

Definition canonicalGroup (g : Group) : Group :=
  mkGroup (nilEmpty (PublicKey g)) (nilEmpty (Secret g)) (nilEmpty (SecretSig g))
          (GroupType_ g) (nilEmpty (SignPub g)).

Definition canonicalID (id : BertyID) : BertyID :=
  mkBertyID (nilEmpty (PublicRendezvousSeed id)) (nilEmpty (AccountPK id))
            (ID_DisplayName id).

Definition canonicalBertyGroup (bg : BertyGroup) : BertyGroup :=
  mkBertyGroup (canonicalGroup <$> Group_ bg) (Group_DisplayName bg).

Definition canonicalLink (l : BertyLink) : BertyLink :=
  mkBertyLink (Kind l) (canonicalID <$> BertyID_ l)
              (canonicalBertyGroup <$> BertyGroup_ l).

(** A record the wire carries unchanged: none of its bytes fields is an
    empty slice that is not nil. *)
Definition wireExact (l : BertyLink) : Prop := canonicalLink l = l.

(** The contract of [strings.ToLower]: it maps a leading ASCII byte on its
    own. *)
Class LowerLaws (E : Externals) : Prop := {
  strings_ToLower_nil : strings_ToLower EmptyString = EmptyString;
  strings_ToLower_ascii : forall c s,
    GoStrings.isASCII c = true ->
    strings_ToLower (String c s) = String (GoStrings.lowerASCII c) (strings_ToLower s)
}.

(** The contracts on the way out: the serializer is total and base58 text
    is alphanumeric. *)
Class EncodeLaws (E : Externals) : Prop := {
  proto_Marshal_total : forall l, exists b, proto_Marshal l = Ok b;
  base58_alnum : forall b, allChars isAlnum (base58_Encode b) = true
}.

(** The contracts on the way back, over the two above: the serializer reads
    its own output back as the record proto3 keeps ([canonicalLink]) and
    reads no bytes as the zero record; base58 text decodes back; a URL with
    the web prefix and a well-escaped, non-empty fragment parses; a query
    string is well escaped and gives back the key and value it was built
    from. *)
Class ExternalsLaws (E : Externals) : Prop := {
  lower_laws :: LowerLaws E;
  encode_laws :: EncodeLaws E;
  proto_roundtrip : forall l b,
    proto_Marshal l = Ok b -> proto_Unmarshal b = Ok (canonicalLink l);
  proto_Unmarshal_nil : proto_Unmarshal [] = Ok zeroBertyLink;
  base58_roundtrip : forall b, b <> [] -> base58_Decode (base58_Encode b) = Ok b;
  url_Parse_fragment : forall frag,
    frag <> EmptyString -> wellEscaped frag = true ->
    exists u, url_Parse (LinkWebPrefix +:+ frag) = Ok u
              /\ Url.Fragment u <> EmptyString;
  Values_Encode_escaped : forall v, wellEscaped (Values_Encode v) = true;
  url_query_roundtrip : forall key value,
    url_ParseQuery (Values_Encode {[key := [value]]}) = Ok {[key := [value]]}
}.

(** ** [BertyLink.Marshal] *)

Definition isEmptyString (s : string) : bool :=
  match s with
  | EmptyString => true
  | _ => false
  end.

(** The [switch link.Kind] of [Marshal]: the kind tag, the machine record
    and the human values of the web form, and the record of the internal
    form.  [None] is the [default] branch. *)
Definition projectLink (link : BertyLink)
  : outcome (option (string * BertyLink * Url.Values * BertyLink)) :=
  match Kind link with
  | BertyLink_ContactInviteV1Kind =>
    id ← deref (BertyID_ link);
    let machine :=
      mkBertyLink BertyLink_UnknownKind
        (Some (mkBertyID (PublicRendezvousSeed id) (AccountPK id) "")) None in
    let human :=
      if negb (isEmptyString (ID_DisplayName id))
      then Url.Add ∅ "name" (ID_DisplayName id) else ∅ in
    Returns (Some ("contact", machine, human, link))
  | BertyLink_GroupV1Kind =>
    bg ← deref (BertyGroup_ link);
    g ← deref (Group_ bg);
    let machine :=
      mkBertyLink BertyLink_UnknownKind None
        (Some (mkBertyGroup
                 (Some (mkGroup (PublicKey g) (Secret g) (SecretSig g)
                                (GroupType_ g) (SignPub g))) "")) in
    let human :=
      if negb (isEmptyString (Group_DisplayName bg))
      then Url.Add ∅ "name" (Group_DisplayName bg) else ∅ in
    Returns (Some ("group", machine, human, link))
  | BertyLink_UnknownKind => Returns None
  end.

Section Links.
Context {E : Externals}.

Definition failMarshal (e : error) : outcome (string * string * option error) :=
  Returns (EmptyString, EmptyString, Some e).

Definition wrapLib (msg : string) : error :=
  Wrap ErrInvalidInput (Some (LibraryError msg)).

(** Returns [(internal, web, err)]. *)
Definition Marshal (link : option BertyLink)
  : outcome (string * string * option error) :=
  match link with
  | None => failMarshal (Plain ErrMissingInput)
  | Some l =>
    if Kind_eqb (Kind l) BertyLink_UnknownKind
    then failMarshal (Plain ErrMissingInput)
    else
      err ← IsValid link;
      match err with
      | Some e => failMarshal e
      | None =>
        projected ← projectLink l;
        match projected with
        | None => failMarshal (Plain ErrInvalidInput)
        | Some (kind, machine, human, qrOptimized) =>
          match proto_Marshal machine with
          | Err msg => failMarshal (wrapLib msg)
          | Ok machineBin =>
            let machineEncoded := base58_Encode machineBin in
            let path := kind +:+ "/" +:+ machineEncoded in
            let path :=
              if (0 <? size human)%nat
              then path +:+ "/" +:+ Values_Encode human else path in
            let web := LinkWebPrefix +:+ path in
            match proto_Marshal qrOptimized with
            | Err msg => failMarshal (wrapLib msg)
            | Ok qrBin =>
              enc ← deref qrBaseEncoder;
              let internal :=
                LinkInternalPrefix +:+ "PB/" +:+ Basex.Encode enc qrBin in
              Returns (internal, web, None)
            end
          end
        end
      end
  end.

(** ** [UnmarshalLink] *)

Definition failLink (e : error) : outcome (option BertyLink * option error) :=
  Returns (None, Some e).

(** The "per-kind merging strategies and checks" of the web form; [None] is
    the [default] branch. *)
Definition mergeHuman (kind : string) (link : BertyLink) (human : Url.Values)
  : option BertyLink :=
  if String.eqb kind "contact" then
    let id := default zeroBertyID (BertyID_ link) in
    let name := Url.Get human "name" in
    let id :=
      if negb (isEmptyString name) && isEmptyString (ID_DisplayName id)
      then mkBertyID (PublicRendezvousSeed id) (AccountPK id) name else id in
    Some (mkBertyLink BertyLink_ContactInviteV1Kind (Some id) (BertyGroup_ link))
  else if String.eqb kind "group" then
    let bg := default zeroBertyGroup (BertyGroup_ link) in
    let name := Url.Get human "name" in
    let bg :=
      if negb (isEmptyString name) && isEmptyString (Group_DisplayName bg)
      then mkBertyGroup (Group_ bg) name else bg in
    Some (mkBertyLink BertyLink_GroupV1Kind (BertyID_ link) (Some bg))
  else None.

(** The internal format, after the prefix test. *)
Definition unmarshalInternal (uri : string)
  : outcome (option BertyLink * option error) :=
  right ← GoStrings.sliceFrom uri (String.length LinkInternalPrefix);
  let parts := GoStrings.Split right "/" in
  if (length parts <? 2)%nat
  then failLink (Wrap ErrInvalidInput (Some TooFewParts))
  else
    match parts with
    | [] => Panics
    | part0 :: parts1 =>
      if String.eqb (strings_ToLower part0) "pb" then
        let blob := GoStrings.Join parts1 "/" in
        enc ← deref qrBaseEncoder;
        match Basex.Decode enc blob with
        | Err msg => failLink (wrapLib msg)
        | Ok qrBin =>
          match proto_Unmarshal qrBin with
          | Err msg => failLink (wrapLib msg)
          | Ok link => Returns (Some link, None)
          end
        end
      else failLink (Wrap ErrInvalidInput (Some (UnsupportedLinkType part0)))
    end.

(** The web format, after the prefix test. *)
Definition unmarshalWeb (uri : string)
  : outcome (option BertyLink * option error) :=
  match url_Parse uri with
  | Err msg => failLink (wrapLib msg)
  | Ok parsed =>
    if isEmptyString (Url.Fragment parsed)
    then failLink (Wrap ErrInvalidInput None)
    else
      let rawFragment := GoStrings.Join (tail (GoStrings.Split uri "#")) "#" in
      let parts := GoStrings.Split rawFragment "/" in
      if (length parts <? 2)%nat
      then failLink (Wrap ErrInvalidInput (Some TooFewParts))
      else
        match parts with
        | part0 :: part1 :: parts2 =>
          match base58_Decode part1 with
          | Err msg => failLink (wrapLib msg)
          | Ok machineBin =>
            match proto_Unmarshal machineBin with
            | Err msg => failLink (wrapLib msg)
            | Ok link =>
              let parsedHuman :=
                if (2 <? length parts)%nat
                then url_ParseQuery (GoStrings.Join parts2 "/")
                else Ok ∅ in
              match parsedHuman with
              | Err msg => failLink (wrapLib msg)
              | Ok human =>
                match mergeHuman part0 link human with
                | None => failLink (Plain ErrInvalidInput)
                | Some link => Returns (Some link, None)
                end
              end
            end
          end
        | _ => Panics
        end
  end.

Definition UnmarshalLink (uri : string)
  : outcome (option BertyLink * option error) :=
  if isEmptyString uri then failLink (Plain ErrMissingInput)
  else if GoStrings.HasPrefix (strings_ToLower uri)
            (strings_ToLower LinkInternalPrefix)
  then unmarshalInternal uri
  else if GoStrings.HasPrefix (strings_ToLower uri)
            (strings_ToLower LinkWebPrefix)
  then unmarshalWeb uri
  else failLink (Wrap ErrInvalidInput (Some UnsupportedLinkFormat)).

End Links.

(** ** Reference collaborators

    One implementation of each library call, on which the contracts above
    are checked and the links of concrete records are computed. *)

Module Ref.

(** *** [strings.ToLower]; bytes outside ASCII are left as they are. *)

Fixpoint ToLower (s : string) : string :=
  match s with
  | EmptyString => EmptyString
  | String c rest => String (GoStrings.lowerASCII c) (ToLower rest)
  end.

(** *** base58 with the Bitcoin alphabet *)

Definition base58Encoder : option Basex.Encoding :=
  Basex.NewEncoding "123456789ABCDEFGHJKLMNPQRSTUVWXYZabcdefghijkmnopqrstuvwxyz".

Definition base58Encode (bin : list byte) : string :=
  match base58Encoder with
  | Some e => Basex.Encode e bin
  | None => EmptyString
  end.

Definition base58Decode (str : string) : result (list byte) :=
  match str, base58Encoder with
  | EmptyString, _ => Err "zero length string"
  | _, Some e => Basex.Decode e str
  | _, None => Err "no alphabet"
  end.

(** *** URL escaping, query strings and fragments *)

Definition unreserved (c : ascii) : bool :=
  isAlnum c || Ascii.eqb c "-" || Ascii.eqb c "_" || Ascii.eqb c "."
  || Ascii.eqb c "~".

Definition hexDigit (n : nat) : ascii :=
  nth n (list_ascii_of_string "0123456789ABCDEF") "0"%char.

Definition unhex (c : ascii) : option nat :=
  let n := nat_of_ascii c in
  if ((48 <=? n) && (n <=? 57))%nat then Some (n - 48)%nat
  else if ((97 <=? n) && (n <=? 102))%nat then Some (n - 97 + 10)%nat
  else if ((65 <=? n) && (n <=? 70))%nat then Some (n - 65 + 10)%nat
  else None.

Fixpoint QueryEscape (s : string) : string :=
  match s with
  | EmptyString => EmptyString
  | String c rest =>
    if unreserved c then String c (QueryEscape rest)
    else if Ascii.eqb c " " then String "+" (QueryEscape rest)
    else
      let n := nat_of_ascii c in
      String "%" (String (hexDigit (n / 16)) (String (hexDigit (n mod 16))
        (QueryEscape rest)))
  end.

Definition consResult (c : ascii) (r : result string) : result string :=
  match r with
  | Ok s => Ok (String c s)
  | Err msg => Err msg
  end.

(** [plus] is set for a query component, where "+" reads as a space. *)
Fixpoint unescape (plus : bool) (s : string) : result string :=
  match s with
  | EmptyString => Ok EmptyString
  | String c rest =>
    if Ascii.eqb c "%" then
      match rest with
      | String h1 (String h2 rest') =>
        match unhex h1, unhex h2 with
        | Some a, Some b =>
          consResult (ascii_of_nat (16 * a + b)) (unescape plus rest')
        | _, _ => Err "invalid URL escape"
        end
      | _ => Err "invalid URL escape"
      end
    else if plus && Ascii.eqb c "+" then consResult " " (unescape plus rest)
    else consResult c (unescape plus rest)
  end.

Definition keyLe (a b : string * list string) : Prop := String.le a.1 b.1.

#[global] Instance keyLe_dec : RelDecision keyLe.
Proof. intros a b. unfold keyLe. apply _. Defined.

Definition encodeKey (kv : string * list string) : list string :=
  map (fun value => QueryEscape kv.1 +:+ String "=" (QueryEscape value)) kv.2.

(** [Values.Encode]: the keys in order, the pairs joined by "&". *)
Definition ValuesEncode (v : Url.Values) : string :=
  GoStrings.Join (concat (map encodeKey (merge_sort keyLe (map_to_list v)))) "&".

(** The pieces between the separators "&" and ";". *)
Fixpoint querySegments (query : string) : list string :=
  match query with
  | EmptyString => [EmptyString]
  | String c rest =>
    if Ascii.eqb c "&" || Ascii.eqb c ";" then EmptyString :: querySegments rest
    else match querySegments rest with
         | seg :: segs => String c seg :: segs
         | [] => [String c EmptyString]
         end
  end.

(** [key, value] around the first "=". *)
Fixpoint cutEquals (s : string) : string * string :=
  match s with
  | EmptyString => (EmptyString, EmptyString)
  | String c rest =>
    if Ascii.eqb c "=" then (EmptyString, rest)
    else let '(k, v) := cutEquals rest in (String c k, v)
  end.

Definition parseSegment (acc : Url.Values * option string) (seg : string)
  : Url.Values * option string :=
  let '(m, err) := acc in
  if isEmptyString seg then acc
  else
    let '(key, value) := cutEquals seg in
    match unescape true key with
    | Err e => (m, Some (default e err))
    | Ok key =>
      match unescape true value with
      | Err e => (m, Some (default e err))
      | Ok value => (Url.Add m key value, err)
      end
    end.

Definition ParseQuery (query : string) : result Url.Values :=
  match fold_left parseSegment (querySegments query) (∅, None) with
  | (m, None) => Ok m
  | (_, Some e) => Err e
  end.

Definition isCTL (c : ascii) : bool :=
  let n := nat_of_ascii c in ((n <? 32) || (n =? 127))%nat.

Fixpoint anyChar (test : ascii -> bool) (s : string) : bool :=
  match s with
  | EmptyString => false
  | String c rest => test c || anyChar test rest
  end.

(** [url.Parse], as far as the fragment goes: the text before the first "#"
    holds no control byte, the text after it is unescaped. *)
Definition Parse (rawurl : string) : result Url.URL :=
  match GoStrings.Split rawurl "#" with
  | [] => Ok (Url.mkURL EmptyString)
  | u :: rest =>
    if anyChar isCTL u then Err "net/url: invalid control character in URL"
    else
      match unescape false (GoStrings.Join rest "#") with
      | Err e => Err e
      | Ok frag => Ok (Url.mkURL frag)
      end
  end.

(** *** A tag-length-value serializer of [BertyLink]

    Field numbers and wire types follow the protobuf schema and presence
    follows proto3: a bytes or string field is on the wire when its length
    is not zero, an enumeration when its number is not zero, a sub-message
    when its pointer is set. *)

(** Base-128 varint, low group first. *)
Fixpoint putVarint (fuel : nat) (n : Z) : list byte :=
  match fuel with
  | O => [Z_to_byte n]
  | S fuel =>
    if n <? 128 then [Z_to_byte n]
    else Z_to_byte (128 + n mod 128) :: putVarint fuel (n / 128)
  end.

Fixpoint getVarint (bs : list byte) : option (Z * list byte) :=
  match bs with
  | [] => None
  | b :: rest =>
    let v := byte_to_Z b in
    if v <? 128 then Some (v, rest)
    else match getVarint rest with
         | Some (hi, rest') => Some (v - 128 + 128 * hi, rest')
         | None => None
         end
  end.

Definition lenField (tag : byte) (payload : list byte) : list byte :=
  let n := Z.of_nat (length payload) in
  tag :: putVarint (Z.to_nat n) n ++ payload.

(** [if len(m.X) > 0] of the generated code. *)
Definition bytesField (tag : byte) (b : bytes) : list byte :=
  match b with
  | Some (c :: payload) => lenField tag (c :: payload)
  | _ => []
  end.

(** [if m.X != nil] of the generated code, on the sub-message as written. *)
Definition messageField (tag : byte) (m : option (list byte)) : list byte :=
  match m with
  | Some payload => lenField tag payload
  | None => []
  end.

Definition stringField (tag : byte) (s : string) : list byte :=
  if isEmptyString s then [] else lenField tag (list_byte_of_string s).

Definition enumField (tag : byte) (n : Z) : list byte :=
  if n =? 0 then [] else [tag; Z_to_byte n].

Definition kindNumber (k : BertyLink_Kind) : Z :=
  match k with
  | BertyLink_UnknownKind => 0
  | BertyLink_ContactInviteV1Kind => 1
  | BertyLink_GroupV1Kind => 2
  end.

Definition groupTypeNumber (g : GroupType) : Z :=
  match g with
  | GroupTypeUndefined => 0
  | GroupTypeAccount => 1
  | GroupTypeContact => 2
  | GroupTypeMultiMember => 3
  end.

Definition putGroup (g : Group) : list byte :=
  bytesField x0a (PublicKey g) ++ bytesField x12 (Secret g)
  ++ bytesField x1a (SecretSig g) ++ enumField x20 (groupTypeNumber (GroupType_ g))
  ++ bytesField x2a (SignPub g).

Definition putBertyID (id : BertyID) : list byte :=
  bytesField x0a (PublicRendezvousSeed id) ++ bytesField x12 (AccountPK id)
  ++ stringField x1a (ID_DisplayName id).

Definition putBertyGroup (bg : BertyGroup) : list byte :=
  messageField x0a (putGroup <$> Group_ bg) ++ stringField x12 (Group_DisplayName bg).

Definition putBertyLink (l : BertyLink) : list byte :=
  enumField x08 (kindNumber (Kind l))
  ++ messageField x12 (putBertyID <$> BertyID_ l)
  ++ messageField x1a (putBertyGroup <$> BertyGroup_ l).

(** Reading: the next field if it carries the expected tag. *)
Definition takeLen (tag : byte) (bs : list byte)
  : option (bytes * list byte) :=
  match bs with
  | [] => Some (None, [])
  | t :: rest =>
    if Byte.eqb t tag then
      '(n, rest') ← getVarint rest;
      if (length rest' <? Z.to_nat n)%nat then None
      else Some (Some (firstn (Z.to_nat n) rest'), skipn (Z.to_nat n) rest')
    else Some (None, bs)
  end.

Definition takeEnum (tag : byte) (bs : list byte) : option (Z * list byte) :=
  match bs with
  | [] => Some (0, [])
  | t :: rest =>
    if Byte.eqb t tag then
      match rest with
      | v :: rest' => Some (byte_to_Z v, rest')
      | [] => None
      end
    else Some (0, bs)
  end.

Definition atEnd (bs : list byte) : option unit :=
  match bs with
  | [] => Some tt
  | _ => None
  end.

Definition stringOf (b : bytes) : string :=
  match b with
  | Some payload => string_of_list_byte payload
  | None => EmptyString
  end.

Definition kindOfNumber (n : Z) : option BertyLink_Kind :=
  if n =? 0 then Some BertyLink_UnknownKind
  else if n =? 1 then Some BertyLink_ContactInviteV1Kind
  else if n =? 2 then Some BertyLink_GroupV1Kind
  else None.

Definition groupTypeOfNumber (n : Z) : option GroupType :=
  if n =? 0 then Some GroupTypeUndefined
  else if n =? 1 then Some GroupTypeAccount
  else if n =? 2 then Some GroupTypeContact
  else if n =? 3 then Some GroupTypeMultiMember
  else None.

Definition getGroup (bs : list byte) : option Group :=
  '(pk, bs) ← takeLen x0a bs;
  '(secret, bs) ← takeLen x12 bs;
  '(sig, bs) ← takeLen x1a bs;
  '(n, bs) ← takeEnum x20 bs;
  '(signPub, bs) ← takeLen x2a bs;
  _ ← atEnd bs;
  groupType ← groupTypeOfNumber n;
  Some (mkGroup pk secret sig groupType signPub).

Definition getBertyID (bs : list byte) : option BertyID :=
  '(seed, bs) ← takeLen x0a bs;
  '(pk, bs) ← takeLen x12 bs;
  '(name, bs) ← takeLen x1a bs;
  _ ← atEnd bs;
  Some (mkBertyID seed pk (stringOf name)).

(** A nested message: absent, or a payload that has to parse. *)
Definition nested {A} (get : list byte -> option A) (b : bytes)
  : option (option A) :=
  match b with
  | None => Some None
  | Some payload => a ← get payload; Some (Some a)
  end.

Definition getBertyGroup (bs : list byte) : option BertyGroup :=
  '(group, bs) ← takeLen x0a bs;
  '(name, bs) ← takeLen x12 bs;
  _ ← atEnd bs;
  group ← nested getGroup group;
  Some (mkBertyGroup group (stringOf name)).

Definition getBertyLink (bs : list byte) : option BertyLink :=
  '(n, bs) ← takeEnum x08 bs;
  '(id, bs) ← takeLen x12 bs;
  '(group, bs) ← takeLen x1a bs;
  _ ← atEnd bs;
  kind ← kindOfNumber n;
  id ← nested getBertyID id;
  group ← nested getBertyGroup group;
  Some (mkBertyLink kind id group).

Definition protoMarshal (l : BertyLink) : result (list byte) :=
  Ok (putBertyLink l).

Definition protoUnmarshal (bs : list byte) : result BertyLink :=
  match getBertyLink bs with
  | Some l => Ok l
  | None => Err "proto: illegal wire data"
  end.

#[global] Instance externals : Externals := {|
  proto_Marshal := protoMarshal;
  proto_Unmarshal := protoUnmarshal;
  base58_Encode := base58Encode;
  base58_Decode := base58Decode;
  url_Parse := Parse;
  url_ParseQuery := ParseQuery;
  Values_Encode := ValuesEncode;
  strings_ToLower := ToLower
|}.

End Ref.

(** ** Sample records *)

Definition alice : BertyLink :=
  BertyID_GetBertyLink
    (Some (mkBertyID (Some [xaa; xbb; xcc]) (Some [x01; x02; x03; x04]) "Alice")).

(** ** Notions of the proofs *)

(** Both loops of the codec multiply a little-endian numeral by a constant
    and add a carry: [Encode] works on base-[base] digits and multiplies by
    256, [Decode] works on bytes and multiplies by [base].  [mulAdd B M] is
    that loop on base-[B] digits with factor [M]. *)
Fixpoint mulAdd (B M : Z) (ds : list Z) (c : Z) : list Z * Z :=
  match ds with
  | [] => ([], c)
  | d :: rest =>
    let x := c + d * M in
    let '(rest', c') := mulAdd B M rest (x / B) in
    (x mod B :: rest', c')
  end.

Fixpoint carryOut (B : Z) (fuel : nat) (c : Z) : list Z :=
  match fuel with
  | O => []
  | S fuel => if 0 <? c then c mod B :: carryOut B fuel (c / B) else []
  end.

Definition radixStep (B M : Z) (ds : list Z) (c : Z) : list Z :=
  let '(ds', c') := mulAdd B M ds c in (ds' ++ carryOut B (Z.to_nat c') c')%list.

(** The number a little-endian numeral stands for. *)
Fixpoint value (B : Z) (ds : list Z) : Z :=
  match ds with
  | [] => 0
  | d :: rest => d + B * value B rest
  end.

Definition digits (B : Z) (ds : list Z) : Prop := Forall (fun d => 0 <= d < B) ds.

(** No zero at the top; the empty numeral counts. *)
Definition canon (B : Z) (ds : list Z) : Prop := digits B ds /\ List.last ds 1 <> 0.

(** The numerals the loops keep: [[0]], or a non-empty canonical one. *)
Definition normal (B : Z) (ds : list Z) : Prop :=
  ds = [0] \/ (ds <> [] /\ canon B ds).

(** Reading a numeral most significant digit first. *)
Definition bigEndian (M : Z) (cs : list Z) (v : Z) : Z :=
  fold_left (fun v c => M * v + c) cs v.

(** Whether the next field of the reference wire format carries [tag]. *)
Definition startsWith (tag : byte) (bs : list byte) : bool :=
  match bs with
  | [] => false
  | t :: _ => Byte.eqb t tag
  end.

(** No separator of a query string. *)
Definition queryPlain (c : ascii) : bool :=
  negb (Ascii.eqb c "&") && negb (Ascii.eqb c ";") && negb (Ascii.eqb c "=").

Definition memberOf (l : list ascii) (c : ascii) : bool :=
  existsb (Ascii.eqb c) l.

(** The characters of the alphabet of [qrBaseEncoder]. *)
Definition qrAlphabet : list ascii :=
  list_ascii_of_string "ABCDEFGHIJKLMNOPQRSTUVWXYZ0123456789$*-.:/".

Definition notSlash (c : ascii) : bool := negb (Ascii.eqb c "/").

(** An input of the web format on which every step before the switch on
    the tag succeeds: the URL parses with a fragment, the raw fragment has
    the parts [tag], [blob] and [rest], the blob decodes to [link] and the
    rest, if any, to [human]. *)
Definition webInput {E : Externals} (uri tag : string) (link : BertyLink)
    (human : Url.Values) : Prop :=
  uri <> EmptyString
  /\ GoStrings.HasPrefix (strings_ToLower uri) (strings_ToLower LinkInternalPrefix)
     = false
  /\ GoStrings.HasPrefix (strings_ToLower uri) (strings_ToLower LinkWebPrefix)
     = true
  /\ exists parsed blob rest machineBin,
       url_Parse uri = Ok parsed
       /\ Url.Fragment parsed <> EmptyString
       /\ GoStrings.Split (GoStrings.Join (tail (GoStrings.Split uri "#")) "#") "/"
          = tag :: blob :: rest
       /\ base58_Decode blob = Ok machineBin
       /\ proto_Unmarshal machineBin = Ok link
       /\ match rest with
          | [] => Ok ∅
          | _ => url_ParseQuery (GoStrings.Join rest "/")
          end = Ok human.

(** The tag [Marshal] writes for a kind. *)
Definition kindTag (k : BertyLink_Kind) : string :=
  match k with
  | BertyLink_ContactInviteV1Kind => "contact"
  | _ => "group"
  end.

(** A record with a present [BertyGroup] whose [Group] is nil. *)
Definition groupWithoutDescriptor (link : option BertyLink) : Prop :=
  exists l bg,
    link = Some l /\ Kind l = BertyLink_GroupV1Kind
    /\ BertyGroup_ l = Some bg /\ Group_ bg = None.

(** A contact sub-record with both keys, a group sub-record of the
    multi-member type. *)
Definition completeID (id : BertyID) : Prop :=
  PublicRendezvousSeed id <> None /\ AccountPK id <> None.

Definition shareableGroup (bg : BertyGroup) : Prop :=
  exists g, Group_ bg = Some g /\ GroupType_ g = GroupTypeMultiMember.

(** A multi-member group with a name, and one without. *)
Definition teamGroup : BertyGroup :=
  mkBertyGroup
    (Some (mkGroup (Some [x0a; x0b]) (Some [x0c]) (Some [x0d]) GroupTypeMultiMember
                   (Some [x0e])))
    "team".

(** The end of the web format: the [default] branch fails. *)
Definition merged (r : option BertyLink) : outcome (option BertyLink * option error) :=
  match r with
  | None => failLink (Plain ErrInvalidInput)
  | Some link => Returns (Some link, None)
  end.

(** The record of a group of another type than the multi-member one. *)
Definition accountGroupLink : BertyLink :=
  BertyGroup_GetBertyLink
    (Some (mkBertyGroup
             (Some (mkGroup (Some [x01]) (Some [x02]) None GroupTypeAccount None))
             "family")).

(** The machine record of a contact whose blob carries a name. *)
Definition bobMachine : BertyLink :=
  mkBertyLink BertyLink_UnknownKind
    (Some (mkBertyID (Some [xaa]) (Some [x01]) "Bob")) None.

(** A valid contact record whose account key is empty but not nil, and the
    record with that key nil. *)
Definition emptyKeyContact : BertyLink :=
  mkBertyLink BertyLink_ContactInviteV1Kind
    (Some (mkBertyID (Some [x01]) (Some []) "")) None.

Definition nilKeyContact : BertyLink :=
  mkBertyLink BertyLink_ContactInviteV1Kind
    (Some (mkBertyID (Some [x01]) None "")) None.

Ltac split_branches :=
  repeat first
    [ progress cbn [mbind outcome_bind deref]
    | match goal with
      | |- context [match ?x with _ => _ end] => destruct x eqn:?
      end ].

Ltac each_ascii c := destruct c as [[] [] [] [] [] [] [] []].

Local Open Scope list_scope.

(** * Positional arithmetic *)

Lemma last_app_cons {A} (l : list A) x xs d :
  List.last (l ++ x :: xs) d = List.last (x :: xs) d.
Proof.
  induction l as [|y l IH]; [reflexivity|].
  cbn [app]. rewrite <- IH. destruct l; reflexivity.
Qed.

Section Radix.
Variables B M : Z.
Hypothesis HB : 2 <= B.
Hypothesis HM : 1 <= M.

Lemma value_app a b : value B (a ++ b) = value B a + B ^ Z.of_nat (length a) * value B b.
Proof.
  induction a as [|d a IH]; cbn [app value length].
  - change (B ^ Z.of_nat 0) with 1. lia.
  - rewrite IH, Nat2Z.inj_succ, Z.pow_succ_r by lia. ring.
Qed.

Lemma digits_value_bounds ds :
  digits B ds -> 0 <= value B ds < B ^ Z.of_nat (length ds).
Proof.
  induction 1 as [|d ds Hd _ IH]; cbn [value length].
  - change (B ^ Z.of_nat 0) with 1. lia.
  - rewrite Nat2Z.inj_succ, Z.pow_succ_r by lia. nia.
Qed.

Lemma canon_tail d ds : canon B (d :: ds) -> canon B ds.
Proof.
  intros [Hd Hl]. split.
  - now inversion Hd.
  - destruct ds; [discriminate | exact Hl].
Qed.

Lemma canon_lower_bound ds :
  canon B ds -> ds <> [] -> B ^ (Z.of_nat (length ds) - 1) <= value B ds.
Proof.
  induction ds as [|d ds IH]; [congruence|]. intros Hc _.
  pose proof (canon_tail _ _ Hc) as Hc'. destruct Hc as [Hd Hl].
  inversion Hd as [|? ? Hd0 Hds]; subst.
  destruct ds as [|e ds].
  - cbn in *. lia.
  - specialize (IH Hc' ltac:(discriminate)).
    cbn [value length] in *. rewrite !Nat2Z.inj_succ in *.
    replace (Z.succ (Z.succ (Z.of_nat (length ds))) - 1)
      with (Z.succ (Z.succ (Z.of_nat (length ds)) - 1)) by lia.
    rewrite Z.pow_succ_r by lia. nia.
Qed.

Lemma canon_value_pos ds : canon B ds -> ds <> [] -> 0 < value B ds.
Proof.
  intros Hc Hne. pose proof (canon_lower_bound ds Hc Hne).
  assert (0 < B ^ (Z.of_nat (length ds) - 1)).
  { apply Z.pow_pos_nonneg; [lia|]. destruct ds; [congruence | cbn; lia]. }
  lia.
Qed.

Lemma canon_unique a : forall b, canon B a -> canon B b -> value B a = value B b -> a = b.
Proof.
  induction a as [|d a IH]; intros [|e b] Ha Hb Hv; [reflexivity| | |].
  - pose proof (canon_value_pos _ Hb ltac:(discriminate)). cbn [value] in *. lia.
  - pose proof (canon_value_pos _ Ha ltac:(discriminate)). cbn [value] in *. lia.
  - pose proof (canon_tail _ _ Ha) as Ha'. pose proof (canon_tail _ _ Hb) as Hb'.
    destruct Ha as [Ha _], Hb as [Hb _].
    inversion Ha as [|? ? Hd _]; inversion Hb as [|? ? He _]; subst.
    cbn [value] in Hv.
    assert (d = e /\ value B a = value B b) as [-> Hv']
      by (destruct (Z.lt_trichotomy (value B a) (value B b)) as [|[|]]; nia).
    f_equal. now apply IH.
Qed.

Lemma normal_value_zero ds : normal B ds -> value B ds = 0 -> ds = [0].
Proof.
  intros [->|[Hne Hc]] Hv; [reflexivity|].
  pose proof (canon_value_pos _ Hc Hne). lia.
Qed.

Lemma normal_unique a b : normal B a -> normal B b -> value B a = value B b -> a = b.
Proof.
  intros [->|[Hna Ha]] [->|[Hnb Hb]] Hv; [reflexivity| | |].
  - pose proof (canon_value_pos _ Hb Hnb). cbn in Hv. lia.
  - pose proof (canon_value_pos _ Ha Hna). cbn in Hv. lia.
  - now apply canon_unique.
Qed.

Lemma normal_digits ds : normal B ds -> digits B ds.
Proof.
  intros [->|[_ [H _]]]; [|exact H]. constructor; [lia | constructor].
Qed.

Lemma mulAdd_spec ds : forall c,
  0 <= c -> digits B ds ->
  digits B (mulAdd B M ds c).1 /\ 0 <= (mulAdd B M ds c).2
  /\ length (mulAdd B M ds c).1 = length ds
  /\ value B (mulAdd B M ds c).1 + B ^ Z.of_nat (length ds) * (mulAdd B M ds c).2
     = M * value B ds + c.
Proof.
  induction ds as [|d ds IH]; intros c Hc Hds; cbn [mulAdd].
  - cbn. repeat split; [constructor | lia | lia].
  - inversion Hds as [|? ? Hd Hds']; subst.
    assert (0 <= c + d * M) by nia.
    specialize (IH ((c + d * M) / B) ltac:(apply Z.div_pos; lia) Hds').
    destruct (mulAdd B M ds ((c + d * M) / B)) as [r c'] eqn:Hr.
    cbn [fst snd] in *. destruct IH as (Hdr & Hc' & Hlen & Hval).
    repeat split.
    + constructor; [apply Z.mod_pos_bound; lia | exact Hdr].
    + exact Hc'.
    + cbn. now rewrite Hlen.
    + cbn [value length]. rewrite Nat2Z.inj_succ, Z.pow_succ_r by lia.
      pose proof (Z.div_mod (c + d * M) B ltac:(lia)). nia.
Qed.

Lemma carryOut_spec fuel : forall c,
  0 <= c -> (Z.to_nat c <= fuel)%nat ->
  digits B (carryOut B fuel c) /\ value B (carryOut B fuel c) = c
  /\ List.last (carryOut B fuel c) 1 <> 0.
Proof.
  induction fuel as [|fuel IH]; intros c Hc Hf; cbn [carryOut].
  - cbn. repeat split; [constructor | lia | lia].
  - destruct (Z.ltb_spec 0 c) as [Hpos|Hz].
    + assert (0 <= c / B < c) by (split; [apply Z.div_pos | apply Z.div_lt]; lia).
      destruct (IH (c / B)) as (Hd & Hv & Hl); [lia | lia |].
      repeat split.
      * constructor; [apply Z.mod_pos_bound; lia | exact Hd].
      * cbn [value]. rewrite Hv. pose proof (Z.div_mod c B ltac:(lia)). lia.
      * destruct (carryOut B fuel (c / B)) as [|e l] eqn:Hco.
        -- cbn in Hv |- *. pose proof (Z.div_mod c B ltac:(lia)). lia.
        -- exact Hl.
    + cbn. repeat split; [constructor | lia | lia].
Qed.

Lemma radixStep_spec ds c :
  normal B ds -> 0 <= c ->
  normal B (radixStep B M ds c) /\ value B (radixStep B M ds c) = M * value B ds + c.
Proof.
  intros Hn Hc. pose proof (normal_digits _ Hn) as Hds.
  unfold radixStep.
  pose proof (mulAdd_spec ds c Hc Hds) as (Hdr & Hc' & Hlen & Hval).
  destruct (mulAdd B M ds c) as [r c'] eqn:Hr. cbn [fst snd] in *.
  pose proof (carryOut_spec (Z.to_nat c') c' Hc' ltac:(lia)) as (Hdo & Hvo & Hlo).
  assert (Hv : value B (r ++ carryOut B (Z.to_nat c') c') = M * value B ds + c).
  { rewrite value_app, Hvo, Hlen. exact Hval. }
  split; [|exact Hv].
  assert (Hne : ds <> []) by (destruct Hn as [->|[? _]]; [discriminate | assumption]).
  assert (Hrne : r <> []) by (destruct r, ds; cbn in Hlen; congruence).
  destruct (carryOut B (Z.to_nat c') c') as [|o os] eqn:Hco.
  - rewrite app_nil_r in *. cbn in Hvo. subst c'.
    destruct (Z.eq_dec (value B r) 0) as [Hz|Hnz].
    + left. assert (value B ds = 0 /\ c = 0) as [Hvd ->].
      { pose proof (digits_value_bounds _ Hds). nia. }
      rewrite (normal_value_zero _ Hn Hvd) in Hr. cbn in Hr.
      rewrite Z.mod_0_l in Hr by lia. now inversion Hr.
    + right. split; [exact Hrne|]. split; [exact Hdr|].
      intros Hl0.
      destruct (exists_last Hrne) as (r' & x & ->).
      rewrite List.last_last in Hl0. subst x.
      rewrite value_app in Hv. cbn [value] in Hv.
      apply List.Forall_app in Hdr as [Hdr' _].
      pose proof (digits_value_bounds _ Hdr') as Hb.
      rewrite length_app in Hlen. cbn in Hlen.
      assert (B ^ Z.of_nat (length r') <= M * value B ds + c).
      { destruct Hn as [->|[_ Hcn]].
        - cbn in Hlen. assert (length r' = 0%nat) as -> by lia.
          change (B ^ Z.of_nat 0) with 1. rewrite value_app in Hnz.
          cbn [value] in Hnz. lia.
        - pose proof (canon_lower_bound _ Hcn Hne) as Hlb.
          replace (Z.of_nat (length ds) - 1) with (Z.of_nat (length r')) in Hlb by lia.
          nia. }
      lia.
  - right. split; [destruct r; discriminate|]. split.
    + apply List.Forall_app. split; assumption.
    + rewrite last_app_cons. exact Hlo.
Qed.

Lemma fold_radixStep cs : forall st,
  normal B st -> Forall (fun c => 0 <= c) cs ->
  normal B (fold_left (radixStep B M) cs st)
  /\ value B (fold_left (radixStep B M) cs st)
     = fold_left (fun v c => M * v + c) cs (value B st).
Proof.
  induction cs as [|c cs IH]; intros st Hn Hcs; [now split|].
  inversion Hcs; subst. cbn [fold_left].
  destruct (radixStep_spec st c Hn ltac:(assumption)) as [Hn' Hv'].
  rewrite <- Hv'. now apply IH.
Qed.

End Radix.

Lemma bigEndian_rev M ds : bigEndian M (rev ds) 0 = value M ds.
Proof.
  unfold bigEndian. induction ds as [|d ds IH]; [reflexivity|].
  cbn [rev value]. rewrite fold_left_app, IH. cbn. lia.
Qed.

Lemma bigEndian_zeros M k cs : bigEndian M (repeat 0 k ++ cs) 0 = bigEndian M cs 0.
Proof.
  unfold bigEndian. induction k as [|k IH]; [reflexivity|].
  cbn [repeat app fold_left]. now replace (M * 0 + 0) with 0 by lia.
Qed.

(** * Bytes *)

Lemma byte_to_Z_range b : 0 <= byte_to_Z b < 256.
Proof. unfold byte_to_Z. pose proof (Byte.to_N_bounded b). lia. Qed.

Lemma Z_to_byte_to_Z b : Z_to_byte (byte_to_Z b) = b.
Proof.
  unfold Z_to_byte. rewrite Z.mod_small by apply byte_to_Z_range.
  unfold byte_to_Z. now rewrite N2Z.id, Byte.of_to_N.
Qed.

Lemma byte_to_Z_to_byte z : 0 <= z < 256 -> byte_to_Z (Z_to_byte z) = z.
Proof.
  intros Hz. unfold Z_to_byte. rewrite Z.mod_small by exact Hz.
  destruct (Byte.of_N (Z.to_N z)) as [b|] eqn:Hb.
  - apply Byte.to_of_N in Hb. unfold byte_to_Z. rewrite Hb. lia.
  - apply Byte.of_N_None_iff in Hb. lia.
Qed.

Lemma byte_to_Z_inj a b : byte_to_Z a = byte_to_Z b -> a = b.
Proof. intros H. now rewrite <- (Z_to_byte_to_Z a), H, Z_to_byte_to_Z. Qed.

Lemma map_byte_to_Z_inj a b : map byte_to_Z a = map byte_to_Z b -> a = b.
Proof.
  revert b. induction a as [|x a IH]; intros [|y b] H; try discriminate; [reflexivity|].
  cbn in H. injection H as Hxy Hab. f_equal; [now apply byte_to_Z_inj | now apply IH].
Qed.

Lemma isZeroByte_true b : Basex.isZeroByte b = true -> b = x00.
Proof.
  unfold Basex.isZeroByte. intros H%Z.eqb_eq.
  apply byte_to_Z_inj. now rewrite H.
Qed.

(** * The loops of the codec as radix steps *)

Lemma encodeDigits_mulAdd base ds : forall c,
  Basex.encodeDigits base ds c = mulAdd base 256 ds c.
Proof.
  induction ds as [|d ds IH]; intros c; [reflexivity|].
  cbn [Basex.encodeDigits mulAdd]. rewrite Z.shiftl_mul_pow2 by lia.
  change (2 ^ 8) with 256. now rewrite IH.
Qed.

Lemma encodeCarry_carryOut base fuel : forall c,
  Basex.encodeCarry fuel base c = carryOut base fuel c.
Proof.
  induction fuel as [|fuel IH]; intros c; [reflexivity|].
  cbn [Basex.encodeCarry carryOut]. now rewrite IH.
Qed.

Lemma encodeByte_radixStep base ds b :
  Basex.encodeByte base ds b = radixStep base 256 ds (byte_to_Z b).
Proof.
  unfold Basex.encodeByte, radixStep. rewrite encodeDigits_mulAdd.
  destruct (mulAdd base 256 ds (byte_to_Z b)) as [r c].
  now rewrite encodeCarry_carryOut.
Qed.

Lemma land_255 x : Z.land x 255 = x mod 256.
Proof. change 255 with (Z.ones 8). now rewrite Z.land_ones by lia. Qed.

Lemma shiftr_8 x : Z.shiftr x 8 = x / 256.
Proof. now rewrite Z.shiftr_div_pow2 by lia. Qed.

Lemma low_byte x : byte_to_Z (Z_to_byte (Z.land x 255)) = x mod 256.
Proof.
  rewrite land_255. apply byte_to_Z_to_byte. apply Z.mod_pos_bound. lia.
Qed.

Lemma decodeBytes_mulAdd base bs : forall c,
  let r := Basex.decodeBytes base bs c in
  (map byte_to_Z r.1, r.2) = mulAdd 256 base (map byte_to_Z bs) c.
Proof.
  induction bs as [|b bs IH]; intros c; [reflexivity|].
  cbn [Basex.decodeBytes mulAdd map]. rewrite shiftr_8.
  specialize (IH ((c + byte_to_Z b * base) / 256)). cbn zeta in IH.
  destruct (Basex.decodeBytes base bs ((c + byte_to_Z b * base) / 256)) as [r c'].
  rewrite <- IH. cbn [fst snd map]. now rewrite low_byte.
Qed.

Lemma decodeCarry_carryOut fuel : forall c,
  map byte_to_Z (Basex.decodeCarry fuel c) = carryOut 256 fuel c.
Proof.
  induction fuel as [|fuel IH]; intros c; [reflexivity|].
  cbn [Basex.decodeCarry carryOut]. destruct (0 <? c); [|reflexivity].
  cbn [map]. now rewrite low_byte, shiftr_8, IH.
Qed.

Lemma decodeRune_radixStep base bs v :
  map byte_to_Z (Basex.decodeRune base bs v)
  = radixStep 256 base (map byte_to_Z bs) v.
Proof.
  unfold Basex.decodeRune, radixStep.
  pose proof (decodeBytes_mulAdd base bs v) as H. cbn zeta in H.
  destruct (Basex.decodeBytes base bs v) as [r c]. rewrite <- H. cbn [fst snd].
  now rewrite map_app, decodeCarry_carryOut.
Qed.

Lemma fold_encodeByte base src : forall ds,
  fold_left (Basex.encodeByte base) src ds
  = fold_left (radixStep base 256) (map byte_to_Z src) ds.
Proof.
  induction src as [|b src IH]; intros ds; [reflexivity|].
  cbn [fold_left map]. now rewrite IH, encodeByte_radixStep.
Qed.

Lemma fold_decodeRune base vs : forall bs,
  map byte_to_Z (fold_left (Basex.decodeRune base) vs bs)
  = fold_left (radixStep 256 base) vs (map byte_to_Z bs).
Proof.
  induction vs as [|v vs IH]; intros bs; [reflexivity|].
  cbn [fold_left]. now rewrite IH, decodeRune_radixStep.
Qed.

(** * The leading-zero loops *)

Lemma leading_split {A} (test : A -> bool) (l : list A) :
  l <> [] ->
  exists pre x post,
    l = pre ++ x :: post /\ length pre = Basex.leading test l
    /\ Forall (fun y => test y = true) pre
    /\ (test x = false \/ post = []).
Proof.
  induction l as [|a l IH]; [congruence|]. intros _.
  destruct l as [|b l].
  - exists [], a, []. cbn. repeat split; [constructor | now right].
  - cbn [Basex.leading]. destruct (test a) eqn:Ha.
    + destruct (IH ltac:(discriminate)) as (pre & x & post & E & Hl & Hp & Hx).
      exists (a :: pre), x, post. rewrite E at 1. cbn [length app].
      repeat split; [now rewrite Hl | now constructor | exact Hx].
    + exists [], a, (b :: l). cbn. repeat split; [constructor | now left].
Qed.

Lemma leading_app {A} (test : A -> bool) pre x post :
  Forall (fun y => test y = true) pre ->
  test x = false \/ post = [] ->
  Basex.leading test (pre ++ x :: post) = length pre.
Proof.
  intros Hp Hx. induction Hp as [|a pre Ha _ IH].
  - cbn [app length]. destruct post as [|b post]; [reflexivity|].
    cbn. destruct Hx as [->|]; [reflexivity | discriminate].
  - cbn [app length Basex.leading]. rewrite Ha, IH.
    destruct pre; reflexivity.
Qed.

Lemma Forall_zero_repeat pre :
  Forall (fun y => Basex.isZeroByte y = true) pre -> pre = repeat x00 (length pre).
Proof.
  induction 1 as [|b pre Hb _ IH]; [reflexivity|].
  cbn [length repeat]. now rewrite <- IH, (isZeroByte_true b Hb).
Qed.

Lemma rev_repeat {A} (x : A) n : rev (repeat x n) = repeat x n.
Proof.
  induction n as [|n IH]; [reflexivity|].
  cbn [repeat rev]. rewrite IH. clear IH.
  induction n as [|n IH]; [reflexivity|]. cbn. now rewrite IH.
Qed.

(** * [NewEncoding]: the rune map inverts the alphabet *)

Lemma fillMap_keeps runes : forall i (m m' : gmap ascii Z) c v,
  Basex.fillMap runes i m = Some m' -> m !! c = Some v -> m' !! c = Some v.
Proof.
  induction runes as [|r runes IH]; intros i m m' c v Hf Hc; cbn in Hf.
  - now inversion Hf; subst.
  - destruct (m !! r) eqn:Hr; [discriminate|].
    apply (IH _ _ _ c v Hf). rewrite lookup_insert_ne; [exact Hc | congruence].
Qed.

Lemma fillMap_lookup runes : forall i (m m' : gmap ascii Z) k c,
  Basex.fillMap runes i m = Some m' -> nth_error runes k = Some c ->
  m' !! c = Some (i + Z.of_nat k).
Proof.
  induction runes as [|r runes IH]; intros i m m' k c Hf Hk.
  - destruct k; discriminate.
  - cbn in Hf. destruct (m !! r) eqn:Hr; [discriminate|].
    destruct k as [|k]; cbn in Hk.
    + inversion Hk; subst. apply (fillMap_keeps _ _ _ _ _ _ Hf).
      rewrite lookup_insert_eq. f_equal. lia.
    + rewrite (IH _ _ _ _ _ Hf Hk). f_equal. lia.
Qed.

Lemma NewEncoding_spec a e :
  Basex.NewEncoding a = Some e ->
  Basex.base e = Z.of_nat (length (Basex.alphabet e))
  /\ forall d, 0 <= d < Basex.base e ->
       Basex.alphabetMap e !! Basex.symbol e d = Some d.
Proof.
  unfold Basex.NewEncoding. intros H.
  destruct (Basex.fillMap (list_ascii_of_string a) 0 ∅) as [m|] eqn:Hm; [|discriminate].
  inversion H; subst; clear H. cbn. split; [reflexivity|]. intros d Hd.
  unfold Basex.symbol. cbn.
  rewrite (fillMap_lookup _ _ _ _ (Z.to_nat d) _ Hm).
  - f_equal. lia.
  - apply nth_error_nth'. lia.
Qed.

(** * [Decode] undoes [Encode] *)

Section Roundtrip.
Variable e : Basex.Encoding.
Hypothesis Hbase : 2 <= Basex.base e.
Hypothesis Hmap : forall d, 0 <= d < Basex.base e ->
  Basex.alphabetMap e !! Basex.symbol e d = Some d.

Lemma symbol_zero d :
  0 <= d < Basex.base e -> Basex.symbol e d = Basex.symbol e 0 -> d = 0.
Proof.
  intros Hd Hs. pose proof (Hmap d Hd) as H1.
  pose proof (Hmap 0 ltac:(lia)) as H0. rewrite Hs in H1. congruence.
Qed.

Lemma decodeRunes_symbols ds : forall bs,
  digits (Basex.base e) ds ->
  Basex.decodeRunes e (map (Basex.symbol e) ds) bs
  = Ok (fold_left (Basex.decodeRune (Basex.base e)) ds bs).
Proof.
  induction ds as [|d ds IH]; intros bs Hds; [reflexivity|].
  inversion Hds; subst. cbn [map Basex.decodeRunes fold_left].
  rewrite Hmap by assumption. now apply IH.
Qed.

Lemma Decode_runes runes :
  runes <> [] ->
  Basex.Decode e (string_of_list_ascii runes)
  = match Basex.decodeRunes e runes [x00] with
    | Err msg => Err msg
    | Ok bs =>
      Ok (rev (bs ++ repeat x00
                 (Basex.leading (Ascii.eqb (Basex.symbol e 0)) runes)))
    end.
Proof.
  destruct runes as [|r runes]; [congruence|]. intros _.
  unfold Basex.Decode.
  change (string_of_list_ascii (r :: runes))
    with (String r (string_of_list_ascii runes)) at 1.
  cbv iota. now rewrite list_ascii_of_string_of_list_ascii.
Qed.

Lemma encode_state src :
  let D := fold_left (Basex.encodeByte (Basex.base e)) src [0] in
  normal (Basex.base e) D
  /\ value (Basex.base e) D = bigEndian 256 (map byte_to_Z src) 0.
Proof.
  cbn zeta. rewrite fold_encodeByte.
  destruct (fold_radixStep (Basex.base e) 256 Hbase ltac:(lia)
              (map byte_to_Z src) [0]) as [Hn Hv].
  - now left.
  - apply List.Forall_map, List.Forall_forall. intros b _. apply byte_to_Z_range.
  - split; [exact Hn|]. rewrite Hv. unfold bigEndian. f_equal. cbn. lia.
Qed.

Lemma decode_state vs :
  digits (Basex.base e) vs ->
  let st := fold_left (Basex.decodeRune (Basex.base e)) vs [x00] in
  normal 256 (map byte_to_Z st)
  /\ value 256 (map byte_to_Z st) = bigEndian (Basex.base e) vs 0.
Proof.
  intros Hvs. cbn zeta. rewrite fold_decodeRune.
  destruct (fold_radixStep 256 (Basex.base e) ltac:(lia) ltac:(lia)
              vs (map byte_to_Z [x00])) as [Hn Hv].
  - now left.
  - eapply List.Forall_impl; [|exact Hvs]. cbn. lia.
  - split; [exact Hn|]. rewrite Hv. reflexivity.
Qed.

Lemma digits_bytes bs : digits 256 (map byte_to_Z bs).
Proof. apply List.Forall_map, List.Forall_forall. intros b _. apply byte_to_Z_range. Qed.

Theorem Decode_Encode src : Basex.Decode e (Basex.Encode e src) = Ok src.
Proof.
  destruct src as [|b0 src0] eqn:Esrc; [reflexivity|]. rewrite <- Esrc.
  assert (Hne : src <> []) by (rewrite Esrc; discriminate).
  assert (HE : Basex.Encode e src
    = string_of_list_ascii
        (repeat (Basex.symbol e 0) (Basex.leading Basex.isZeroByte src)
         ++ map (Basex.symbol e)
              (rev (fold_left (Basex.encodeByte (Basex.base e)) src [0])))).
  { rewrite Esrc. reflexivity. }
  rewrite HE. clear HE Esrc b0 src0.
  destruct (encode_state src) as [HnD HvD].
  set (D := fold_left (Basex.encodeByte (Basex.base e)) src [0]) in *.
  destruct (leading_split Basex.isZeroByte src Hne)
    as (pre & x & post & Esrc & Hz & Hpre & Hx).
  rewrite <- Hz.
  pose proof (Forall_zero_repeat pre Hpre) as Epre.
  set (z := length pre) in *.
  assert (HsrcZ : map byte_to_Z src
                  = repeat 0 z ++ byte_to_Z x :: map byte_to_Z post).
  { rewrite Esrc, Epre, map_app, map_repeat. reflexivity. }
  assert (HV : value (Basex.base e) D
               = value 256 (rev (map byte_to_Z (x :: post)))).
  { rewrite HvD, HsrcZ, bigEndian_zeros, <- bigEndian_rev, rev_involutive.
    reflexivity. }
  pose proof (normal_digits _ Hbase _ HnD) as HdD.
  assert (HdrD : digits (Basex.base e) (repeat 0 z ++ rev D)).
  { apply List.Forall_app. split.
    - apply List.Forall_forall. intros y Hy%repeat_spec. lia.
    - now apply List.Forall_rev. }
  assert (Hrunes : repeat (Basex.symbol e 0) z ++ map (Basex.symbol e) (rev D)
                   = map (Basex.symbol e) (repeat 0 z ++ rev D)).
  { now rewrite map_app, map_repeat. }
  assert (HDne : D <> []) by (destruct HnD as [->|[? _]]; [discriminate | assumption]).
  rewrite Decode_runes.
  2:{ intros H. apply (f_equal (@length ascii)) in H.
      rewrite length_app, length_map, length_rev in H.
      destruct D; [congruence | cbn in H; lia]. }
  rewrite Hrunes at 1. rewrite decodeRunes_symbols by exact HdrD.
  destruct (decode_state _ HdrD) as [Hnst Hvst].
  set (st := fold_left (Basex.decodeRune (Basex.base e)) (repeat 0 z ++ rev D) [x00]) in *.
  rewrite bigEndian_zeros, bigEndian_rev, HV in Hvst.
  destruct (Basex.isZeroByte x) eqn:Hzx.
  - (* the source is all zero bytes *)
    destruct Hx as [Hx | ->]; [discriminate|].
    apply isZeroByte_true in Hzx. subst x. cbn in HV, Hvst.
    rewrite (normal_value_zero _ Hbase _ HnD HV).
    apply (normal_value_zero 256 ltac:(lia) _ Hnst) in Hvst.
    change [0] with (map byte_to_Z [x00]) in Hvst.
    apply map_byte_to_Z_inj in Hvst. rewrite Hvst.
    cbn [rev app map].
    rewrite (leading_app _ (repeat (Basex.symbol e 0) z) (Basex.symbol e 0) []).
    + rewrite repeat_length, rev_repeat, Esrc, <- Epre. reflexivity.
    + apply List.Forall_forall. intros y Hy%repeat_spec. subst y. apply Ascii.eqb_refl.
    + now right.
  - (* a non-zero byte follows the leading zeros *)
    assert (Hxz : byte_to_Z x <> 0).
    { unfold Basex.isZeroByte in Hzx. now apply Z.eqb_neq in Hzx. }
    assert (Hcan : canon 256 (rev (map byte_to_Z (x :: post)))).
    { split.
      - apply List.Forall_rev, digits_bytes.
      - cbn [map rev]. now rewrite List.last_last. }
    assert (Hcne : rev (map byte_to_Z (x :: post)) <> []).
    { cbn [map rev]. destruct (rev (map byte_to_Z post)); discriminate. }
    pose proof (canon_value_pos 256 ltac:(lia) _ Hcan Hcne) as Hpos.
    assert (Hst : st = rev (x :: post)).
    { apply map_byte_to_Z_inj. rewrite map_rev.
      apply (normal_unique 256 ltac:(lia)); [exact Hnst | right; now split | exact Hvst]. }
    rewrite Hst.
    destruct HnD as [HD0|[_ [_ HlD]]].
    { rewrite HD0 in HV. cbn [value] in HV. lia. }
    destruct (exists_last HDne) as (D' & t & ED). rewrite ED in *.
    rewrite List.last_last in HlD.
    assert (Ht : 0 <= t < Basex.base e).
    { apply List.Forall_app in HdD as [_ Ht]. now inversion Ht. }
    replace (rev (D' ++ [t])) with (t :: rev D') by (now rewrite rev_app_distr).
    cbn [map].
    rewrite (leading_app _ (repeat (Basex.symbol e 0) z) (Basex.symbol e t)).
    + rewrite repeat_length, rev_app_distr, rev_repeat, rev_involutive, Esrc, <- Epre.
      reflexivity.
    + apply List.Forall_forall. intros y Hy%repeat_spec. subst y. apply Ascii.eqb_refl.
    + left. apply Ascii.eqb_neq. intros Hs. symmetry in Hs.
      now apply symbol_zero in Hs.
Qed.

(** Every character of an encoding is one of the alphabet. *)
Lemma Encode_alphabet src :
  Basex.base e = Z.of_nat (length (Basex.alphabet e)) ->
  Forall (fun c => In c (Basex.alphabet e))
         (list_ascii_of_string (Basex.Encode e src)).
Proof.
  intros Hlen. destruct src as [|b0 src0] eqn:Esrc; [constructor|].
  rewrite <- Esrc. 
  assert (HE : Basex.Encode e src
    = string_of_list_ascii
        (repeat (Basex.symbol e 0) (Basex.leading Basex.isZeroByte src)
         ++ map (Basex.symbol e)
              (rev (fold_left (Basex.encodeByte (Basex.base e)) src [0])))).
  { rewrite Esrc. reflexivity. }
  rewrite HE, list_ascii_of_string_of_list_ascii.
  assert (Hsym : forall d, 0 <= d < Basex.base e ->
                 In (Basex.symbol e d) (Basex.alphabet e)).
  { intros d Hd. apply nth_In. lia. }
  destruct (encode_state src) as [HnD _].
  apply List.Forall_app. split.
  - apply List.Forall_forall. intros y Hy%repeat_spec. subst y. apply Hsym. lia.
  - apply List.Forall_map. apply List.Forall_rev.
    eapply List.Forall_impl; [|exact (normal_digits _ Hbase _ HnD)]. exact Hsym.
Qed.

End Roundtrip.

(** * The QR encoder *)

Lemma qrBaseEncoder_base : option_map Basex.base qrBaseEncoder = Some 42.
Proof. vm_compute. reflexivity. Qed.

Lemma qrBaseEncoder_roundtrip enc :
  qrBaseEncoder = Some enc ->
  forall bin, Basex.Decode enc (Basex.Encode enc bin) = Ok bin.
Proof.
  intros Hq bin. pose proof qrBaseEncoder_base as Hb. rewrite Hq in Hb.
  injection Hb as Hb. unfold qrBaseEncoder in Hq.
  destruct (NewEncoding_spec _ _ Hq) as [_ Hmap].
  apply Decode_Encode; [lia | exact Hmap].
Qed.

Lemma qrBaseEncoder_some : exists enc, qrBaseEncoder = Some enc.
Proof.
  destruct qrBaseEncoder as [enc|] eqn:Hq; [now exists enc|].
  pose proof qrBaseEncoder_base as Hb. rewrite Hq in Hb. discriminate.
Qed.

(** * Strings *)

Lemma append_cons c a b : String c a +:+ b = String c (a +:+ b).
Proof. reflexivity. Qed.

Lemma append_nil b : EmptyString +:+ b = b.
Proof. reflexivity. Qed.


Lemma append_assoc a b c : (a +:+ b) +:+ c = a +:+ (b +:+ c).
Proof. induction a as [|x a IH]; [reflexivity|]. now rewrite !append_cons, IH. Qed.

Lemma Split_nonempty s sep : GoStrings.Split s sep <> [].
Proof.
  destruct s as [|c s]; cbn; [discriminate|].
  destruct (Ascii.eqb c sep); [discriminate|].
  destruct (GoStrings.Split s sep); discriminate.
Qed.

Lemma Join_cons e es sep :
  es <> [] ->
  GoStrings.Join (e :: es) sep = e +:+ String sep (GoStrings.Join es sep).
Proof. destruct es; [congruence | reflexivity]. Qed.

Lemma Join_Split s sep : GoStrings.Join (GoStrings.Split s sep) sep = s.
Proof.
  induction s as [|c s IH]; [reflexivity|]. cbn [GoStrings.Split].
  destruct (Ascii.eqb_spec c sep) as [->|Hne].
  - rewrite Join_cons by apply Split_nonempty. now rewrite IH.
  - pose proof (Split_nonempty s sep) as Hn.
    destruct (GoStrings.Split s sep) as [|p ps]; [congruence|].
    destruct ps as [|q ps].
    + cbn in IH |- *. now rewrite IH.
    + rewrite Join_cons in IH |- * by discriminate.
      rewrite append_cons. now rewrite IH.
Qed.

(** Splitting at the first separator. *)
Lemma Split_app a b sep :
  allChars (fun c => negb (Ascii.eqb c sep)) a = true ->
  GoStrings.Split (a +:+ String sep b) sep = a :: GoStrings.Split b sep.
Proof.
  induction a as [|c a IH]; intros Ha.
  - rewrite append_nil. cbn [GoStrings.Split]. now rewrite Ascii.eqb_refl.
  - cbn [allChars] in Ha. apply andb_true_iff in Ha as [Hc Ha].
    rewrite append_cons. cbn [GoStrings.Split].
    apply negb_true_iff in Hc. rewrite Hc, (IH Ha). reflexivity.
Qed.

Lemma Split_none a sep :
  allChars (fun c => negb (Ascii.eqb c sep)) a = true ->
  GoStrings.Split a sep = [a].
Proof.
  induction a as [|c a IH]; intros Ha; [reflexivity|].
  cbn [allChars] in Ha. apply andb_true_iff in Ha as [Hc Ha].
  cbn [GoStrings.Split]. apply negb_true_iff in Hc. now rewrite Hc, (IH Ha).
Qed.

Lemma allChars_impl (p q : ascii -> bool) s :
  (forall c, p c = true -> q c = true) ->
  allChars p s = true -> allChars q s = true.
Proof.
  intros Hpq. induction s as [|c s IH]; [reflexivity|]. cbn [allChars].
  intros [Hc Hs]%andb_true_iff. now rewrite (Hpq c Hc), (IH Hs).
Qed.

Lemma allChars_app p a b :
  allChars p (a +:+ b) = allChars p a && allChars p b.
Proof.
  induction a as [|c a IH]; [reflexivity|].
  rewrite append_cons. cbn [allChars]. now rewrite IH, andb_assoc.
Qed.

Lemma HasPrefix_app p s : GoStrings.HasPrefix (p +:+ s) p = true.
Proof.
  induction p as [|c p IH]; [reflexivity|].
  rewrite append_cons. cbn [GoStrings.HasPrefix]. now rewrite Ascii.eqb_refl, IH.
Qed.

Lemma length_append a b :
  String.length (a +:+ b) = (String.length a + String.length b)%nat.
Proof. induction a as [|c a IH]; [reflexivity|]. rewrite append_cons. cbn. now rewrite IH. Qed.

Lemma substring_all s : String.substring 0 (String.length s) s = s.
Proof. induction s as [|c s IH]; [reflexivity|]. cbn. now rewrite IH. Qed.

Lemma substring_skip p s n :
  String.substring (String.length p) n (p +:+ s) = String.substring 0 n s.
Proof. induction p as [|c p IH]; [reflexivity|]. rewrite append_cons. cbn. exact IH. Qed.

Lemma sliceFrom_app p s :
  GoStrings.sliceFrom (p +:+ s) (String.length p) = Returns s.
Proof.
  unfold GoStrings.sliceFrom. rewrite length_append.
  destruct (Nat.ltb_spec (String.length p + String.length s) (String.length p)); [lia|].
  replace (String.length p + String.length s - String.length p)%nat
    with (String.length s) by lia.
  now rewrite substring_skip, substring_all.
Qed.

(** Well-escaped text. *)

Lemma wellEscaped_plain s :
  allChars (fun c => negb (Ascii.eqb c "%")) s = true -> wellEscaped s = true.
Proof.
  induction s as [|c s IH]; [reflexivity|]. cbn [allChars wellEscaped].
  intros [Hc Hs]%andb_true_iff. apply negb_true_iff in Hc. rewrite Hc. now apply IH.
Qed.

Lemma wellEscaped_app_plain a b :
  allChars (fun c => negb (Ascii.eqb c "%")) a = true ->
  wellEscaped (a +:+ b) = wellEscaped b.
Proof.
  induction a as [|c a IH]; [reflexivity|]. cbn [allChars].
  intros [Hc Ha]%andb_true_iff. apply negb_true_iff in Hc.
  rewrite append_cons. cbn [wellEscaped]. rewrite Hc. now apply IH.
Qed.

Lemma wellEscaped_app a : forall b,
  wellEscaped a = true -> wellEscaped b = true -> wellEscaped (a +:+ b) = true.
Proof.
  assert (H : forall n a, (String.length a <= n)%nat -> forall b,
             wellEscaped a = true -> wellEscaped b = true ->
             wellEscaped (a +:+ b) = true).
  { induction n as [|n IH]; intros [|c a'] Hlen b Ha Hb; try exact Hb.
    - cbn in Hlen. lia.
    - rewrite append_cons. cbn [wellEscaped] in Ha |- *.
      destruct (Ascii.eqb c "%").
      + destruct a' as [|h1 [|h2 a'']]; try discriminate.
        rewrite !append_cons.
        apply andb_true_iff in Ha as [Hh Ha]. rewrite Hh. cbn [andb].
        apply IH; [cbn in Hlen |- *; lia | exact Ha | exact Hb].
      + apply IH; [cbn in Hlen; lia | exact Ha | exact Hb]. }
  intros b. now apply (H (String.length a)).
Qed.

Lemma isAlnum_not (x : ascii) c : isAlnum x = false -> isAlnum c = true -> negb (Ascii.eqb c x) = true.
Proof.
  intros Hx Hc. apply negb_true_iff, Ascii.eqb_neq. intros ->. congruence.
Qed.

(** * Links *)

(** ** The records the wire carries unchanged *)

Lemma nilEmpty_fixed (b : bytes) : nilEmpty b = b <-> b <> Some [].
Proof. destruct b as [[|c b]|]; cbn; split; congruence. Qed.

Lemma canonicalID_fixed id :
  canonicalID id = id <->
  PublicRendezvousSeed id <> Some [] /\ AccountPK id <> Some [].
Proof.
  destruct id as [seed pk name]. unfold canonicalID.
  cbn [PublicRendezvousSeed AccountPK ID_DisplayName].
  rewrite <- !nilEmpty_fixed. split.
  - intros H. injection H as Hs Hp. now split.
  - intros [-> ->]. reflexivity.
Qed.

Lemma canonicalGroup_fixed g :
  canonicalGroup g = g <->
  PublicKey g <> Some [] /\ Secret g <> Some [] /\ SecretSig g <> Some []
  /\ SignPub g <> Some [].
Proof.
  destruct g as [pk secret sig gt signPub]. unfold canonicalGroup.
  cbn [PublicKey Secret SecretSig GroupType_ SignPub].
  rewrite <- !nilEmpty_fixed. split.
  - intros H. injection H as H1 H2 H3 H4. now repeat split.
  - intros (-> & -> & -> & ->). reflexivity.
Qed.

(** [wireExact] field by field: no key of the contact sub-record and no
    bytes field of the group descriptor is an empty slice that is not
    nil. *)
Lemma wireExact_iff l :
  wireExact l <->
  (forall id, BertyID_ l = Some id ->
     PublicRendezvousSeed id <> Some [] /\ AccountPK id <> Some [])
  /\ (forall bg g, BertyGroup_ l = Some bg -> Group_ bg = Some g ->
        PublicKey g <> Some [] /\ Secret g <> Some [] /\ SecretSig g <> Some []
        /\ SignPub g <> Some []).
Proof.
  unfold wireExact, canonicalLink. destruct l as [k id bg].
  cbn [Kind BertyID_ BertyGroup_]. split.
  - intros H. injection H as Hid Hbg. split.
    + intros i ->. cbn in Hid. injection Hid as Hid. now apply canonicalID_fixed.
    + intros b g -> Hg. cbn in Hbg. injection Hbg as Hbg.
      destruct b as [g0 name]. cbn in Hg. subst g0.
      unfold canonicalBertyGroup in Hbg. cbn in Hbg. injection Hbg as Hbg.
      now apply canonicalGroup_fixed.
  - intros [Hid Hbg]. f_equal.
    + destruct id as [i|]; [|reflexivity]. cbn. f_equal.
      now apply canonicalID_fixed, Hid.
    + destruct bg as [[[g|] name]|]; [| reflexivity | reflexivity].
      cbn. unfold canonicalBertyGroup. cbn. do 3 f_equal.
      now apply canonicalGroup_fixed, (Hbg _ g eq_refl).
Qed.

Section LinkProperties.
Context {E : Externals}.

Lemma ToLower_app `{!LowerLaws E} p s :
  allChars GoStrings.isASCII p = true ->
  strings_ToLower (p +:+ s) = Ref.ToLower p +:+ strings_ToLower s.
Proof.
  induction p as [|c p IH]; [reflexivity|]. cbn [allChars].
  intros [Hc Hp]%andb_true_iff.
  rewrite append_cons, strings_ToLower_ascii by exact Hc.
  cbn [Ref.ToLower]. now rewrite append_cons, IH.
Qed.

Lemma ToLower_ascii_string `{!LowerLaws E} p :
  allChars GoStrings.isASCII p = true -> strings_ToLower p = Ref.ToLower p.
Proof.
  induction p as [|c p IH]; [intros _; apply strings_ToLower_nil|].
  cbn [allChars]. intros [Hc Hp]%andb_true_iff.
  rewrite strings_ToLower_ascii by exact Hc. cbn [Ref.ToLower]. now rewrite IH.
Qed.

Lemma internal_prefix_matches `{!LowerLaws E} rest :
  GoStrings.HasPrefix (strings_ToLower (LinkInternalPrefix +:+ rest))
    (strings_ToLower LinkInternalPrefix) = true.
Proof.
  rewrite (ToLower_app LinkInternalPrefix),
    (ToLower_ascii_string LinkInternalPrefix) by reflexivity.
  apply HasPrefix_app.
Qed.

Lemma web_prefix_matches `{!LowerLaws E} rest :
  GoStrings.HasPrefix (strings_ToLower (LinkWebPrefix +:+ rest))
    (strings_ToLower LinkInternalPrefix) = false
  /\ GoStrings.HasPrefix (strings_ToLower (LinkWebPrefix +:+ rest))
       (strings_ToLower LinkWebPrefix) = true.
Proof.
  rewrite (ToLower_app LinkWebPrefix), (ToLower_ascii_string LinkWebPrefix),
    (ToLower_ascii_string LinkInternalPrefix) by reflexivity.
  split; [reflexivity | apply HasPrefix_app].
Qed.

(** The internal form of any bytes reads back as the record the
    serializer reads in them. *)
Lemma UnmarshalLink_internal `{!LowerLaws E} enc l bin :
  qrBaseEncoder = Some enc -> proto_Unmarshal bin = Ok l ->
  UnmarshalLink (LinkInternalPrefix +:+ "PB/" +:+ Basex.Encode enc bin)
  = Returns (Some l, None).
Proof.
  intros Hq Hbin. unfold UnmarshalLink.
  change (isEmptyString (LinkInternalPrefix +:+ _)) with false. cbv iota.
  rewrite internal_prefix_matches. unfold unmarshalInternal.
  rewrite sliceFrom_app. cbn [mbind outcome_bind].
  change ("PB/" +:+ Basex.Encode enc bin)
    with ("PB" +:+ String "/" (Basex.Encode enc bin)).
  rewrite Split_app by reflexivity.
  pose proof (Split_nonempty (Basex.Encode enc bin) "/") as Hne.
  pose proof (Join_Split (Basex.Encode enc bin) "/") as HJ.
  destruct (GoStrings.Split (Basex.Encode enc bin) "/") as [|p ps]; [congruence|].
  cbn [length Nat.ltb Nat.leb].
  rewrite (ToLower_ascii_string "PB") by reflexivity.
  change (String.eqb (Ref.ToLower "PB") "pb") with true. cbv iota.
  rewrite HJ, Hq. cbn [deref mbind outcome_bind].
  rewrite (qrBaseEncoder_roundtrip enc Hq), Hbin.
  reflexivity.
Qed.

(** What [Marshal] returns on a record that [IsValid] and the [switch]
    accept. *)
Lemma Marshal_valid `{!EncodeLaws E} l kind machine human enc :
  Kind l <> BertyLink_UnknownKind ->
  IsValid (Some l) = Returns None ->
  projectLink l = Returns (Some (kind, machine, human, l)) ->
  qrBaseEncoder = Some enc ->
  exists machineBin qrBin,
    proto_Marshal machine = Ok machineBin /\ proto_Marshal l = Ok qrBin
    /\ Marshal (Some l)
       = Returns
           (LinkInternalPrefix +:+ "PB/" +:+ Basex.Encode enc qrBin,
            LinkWebPrefix +:+
              (if (0 <? size human)%nat
               then (kind +:+ "/" +:+ base58_Encode machineBin) +:+ "/"
                    +:+ Values_Encode human
               else kind +:+ "/" +:+ base58_Encode machineBin),
            None).
Proof.
  intros Hk Hv Hp Hq.
  destruct (proto_Marshal_total machine) as [machineBin Hm].
  destruct (proto_Marshal_total l) as [qrBin Hl].
  exists machineBin, qrBin. repeat split; [exact Hm | exact Hl|].
  unfold Marshal. destruct (Kind l) eqn:HK; [congruence| |];
    cbn [Kind_eqb]; rewrite Hv; cbn [mbind outcome_bind]; rewrite Hp;
    cbn [mbind outcome_bind]; rewrite Hm, Hl, Hq; reflexivity.
Qed.

(** A record the validator accepts passes the [switch] of [Marshal]. *)
Lemma valid_projects l :
  IsValid (Some l) = Returns None ->
  Kind l <> BertyLink_UnknownKind
  /\ exists kind machine human,
       projectLink l = Returns (Some (kind, machine, human, l)).
Proof.
  unfold IsValid, projectLink. destruct (Kind l); [discriminate| |].
  - destruct (BertyID_ l) as [id|]; [|discriminate]. intros _.
    split; [discriminate|]. eexists _, _, _. reflexivity.
  - destruct (BertyGroup_ l) as [bg|]; [|discriminate].
    cbn [deref mbind outcome_bind].
    destruct (Group_ bg) as [g|]; [|discriminate]. intros _.
    split; [discriminate|]. eexists _, _, _. reflexivity.
Qed.

(** C1, amended: for every record the validator accepts, [Marshal]
    succeeds and [UnmarshalLink] of its internal form returns, with no
    error, that record with every bytes field of length zero read back as
    nil; it returns that very record, every field included, when none of
    its bytes fields is an empty slice that is not nil. *)
Theorem internal_roundtrip_up_to_nil `{!ExternalsLaws E} (l : BertyLink) :
  IsValid (Some l) = Returns None ->
  exists internal web,
    Marshal (Some l) = Returns (internal, web, None)
    /\ UnmarshalLink internal = Returns (Some (canonicalLink l), None)
    /\ (wireExact l -> UnmarshalLink internal = Returns (Some l, None)).
Proof.
  intros Hv. destruct (valid_projects l Hv) as (Hk & kind & machine & human & Hp).
  destruct qrBaseEncoder_some as [enc Hq].
  destruct (Marshal_valid l kind machine human enc Hk Hv Hp Hq)
    as (machineBin & qrBin & _ & Hl & HM).
  apply proto_roundtrip in Hl.
  pose proof (UnmarshalLink_internal enc _ qrBin Hq Hl) as HU.
  eexists _, _. split; [exact HM|]. split; [exact HU|].
  intros Hx. rewrite HU. unfold wireExact in Hx. now rewrite Hx.
Qed.

Lemma proto_Marshal_nonempty `{!ExternalsLaws E} l bin :
  proto_Marshal l = Ok bin -> canonicalLink l <> zeroBertyLink -> bin <> [].
Proof.
  intros Hbin Hl ->. apply proto_roundtrip in Hbin.
  rewrite proto_Unmarshal_nil in Hbin. congruence.
Qed.

Lemma Add_empty key value : Url.Add ∅ key value = {[key := [value]]}.
Proof. unfold Url.Add. rewrite lookup_empty. apply insert_empty. Qed.

Lemma Get_singleton key value : Url.Get {[key := [value]]} key = value.
Proof. unfold Url.Get. now rewrite lookup_singleton_eq. Qed.

Lemma alnum_plain (x : ascii) s :
  isAlnum x = false -> allChars isAlnum s = true ->
  allChars (fun c => negb (Ascii.eqb c x)) s = true.
Proof. intros Hx. apply allChars_impl. intros c. now apply isAlnum_not. Qed.

(** The first steps of the web format on [LinkWebPrefix ++ tag/blob...]:
    the URL parses, and the raw fragment is the text after the prefix. *)
Lemma unmarshalWeb_fragment `{!ExternalsLaws E} path :
  path <> EmptyString -> wellEscaped path = true ->
  exists parsed,
    url_Parse (LinkWebPrefix +:+ path) = Ok parsed
    /\ isEmptyString (Url.Fragment parsed) = false
    /\ GoStrings.Join (tail (GoStrings.Split (LinkWebPrefix +:+ path) "#")) "#"
       = path.
Proof.
  intros Hne Hesc. destruct (url_Parse_fragment path Hne Hesc) as (u & Hu & Hf).
  exists u. split; [exact Hu|]. split.
  - destruct (Url.Fragment u); [congruence | reflexivity].
  - change (LinkWebPrefix +:+ path)
      with ("https://berty.tech/id" +:+ String "#" path).
    rewrite Split_app by reflexivity. cbn [tail]. apply Join_Split.
Qed.

(** A web link without human values. *)
Lemma UnmarshalLink_web_bare `{!ExternalsLaws E} tag machine machineBin :
  tag <> EmptyString -> allChars isAlnum tag = true ->
  proto_Marshal machine = Ok machineBin ->
  canonicalLink machine <> zeroBertyLink ->
  UnmarshalLink (LinkWebPrefix +:+ (tag +:+ "/" +:+ base58_Encode machineBin))
  = merged (mergeHuman tag (canonicalLink machine) ∅).
Proof.
  intros Htag Hal Hbin Hnz.
  pose proof (base58_alnum machineBin) as Hb58.
  set (b58 := base58_Encode machineBin) in *.
  assert (Hpath : tag +:+ "/" +:+ b58 <> EmptyString) by (destruct tag; [congruence | discriminate]).
  assert (Hesc : wellEscaped (tag +:+ "/" +:+ b58) = true).
  { rewrite wellEscaped_app_plain by (now apply alnum_plain).
    apply wellEscaped_plain.
    change ("/" +:+ b58) with (String "/" b58). cbn [allChars]. 
    rewrite (alnum_plain "%" b58) by easy. reflexivity. }
  destruct (unmarshalWeb_fragment _ Hpath Hesc) as (u & Hu & Hf & Hraw).
  unfold UnmarshalLink.
  change (isEmptyString (LinkWebPrefix +:+ _)) with false. cbv iota.
  destruct (web_prefix_matches (tag +:+ "/" +:+ b58)) as [-> ->].
  unfold unmarshalWeb. rewrite Hu, Hf, Hraw.
  change (tag +:+ "/" +:+ b58) with (tag +:+ String "/" b58).
  rewrite Split_app by (now apply alnum_plain).
  rewrite Split_none by (now apply alnum_plain).
  cbn [length Nat.ltb Nat.leb].
  unfold b58. rewrite base58_roundtrip by (now apply (proto_Marshal_nonempty machine)).
  rewrite (proto_roundtrip _ _ Hbin). reflexivity.
Qed.

(** A web link with one human value. *)
Lemma UnmarshalLink_web_human `{!ExternalsLaws E} tag machine machineBin key value :
  tag <> EmptyString -> allChars isAlnum tag = true ->
  proto_Marshal machine = Ok machineBin ->
  canonicalLink machine <> zeroBertyLink ->
  UnmarshalLink
    (LinkWebPrefix +:+
       ((tag +:+ "/" +:+ base58_Encode machineBin) +:+ "/"
        +:+ Values_Encode {[key := [value]]}))
  = merged (mergeHuman tag (canonicalLink machine) {[key := [value]]}).
Proof.
  intros Htag Hal Hbin Hnz.
  pose proof (base58_alnum machineBin) as Hb58.
  pose proof (Values_Encode_escaped {[key := [value]]}) as Hq.
  pose proof (url_query_roundtrip key value) as Hrt.
  set (b58 := base58_Encode machineBin) in *.
  set (q := Values_Encode {[key := [value]]}) in *.
  assert (Epath : (tag +:+ "/" +:+ b58) +:+ "/" +:+ q
                  = tag +:+ String "/" (b58 +:+ String "/" q)).
  { now rewrite append_assoc. }
  rewrite Epath.
  assert (Hpath : tag +:+ String "/" (b58 +:+ String "/" q) <> EmptyString)
    by (destruct tag; [congruence | discriminate]).
  assert (Hesc : wellEscaped (tag +:+ String "/" (b58 +:+ String "/" q)) = true).
  { rewrite wellEscaped_app_plain by (now apply alnum_plain).
    change (String "/" (b58 +:+ String "/" q)) with ("/" +:+ (b58 +:+ String "/" q)).
    rewrite wellEscaped_app_plain by reflexivity.
    rewrite wellEscaped_app_plain by (now apply alnum_plain).
    exact Hq. }
  destruct (unmarshalWeb_fragment _ Hpath Hesc) as (u & Hu & Hf & Hraw).
  unfold UnmarshalLink.
  change (isEmptyString (LinkWebPrefix +:+ _)) with false. cbv iota.
  destruct (web_prefix_matches (tag +:+ String "/" (b58 +:+ String "/" q))) as [-> ->].
  unfold unmarshalWeb. rewrite Hu, Hf, Hraw.
  rewrite Split_app by (now apply alnum_plain).
  rewrite Split_app by (now apply alnum_plain).
  pose proof (Split_nonempty q "/") as Hne.
  pose proof (Join_Split q "/") as HJ.
  destruct (GoStrings.Split q "/") as [|p ps]; [congruence|].
  cbn [length Nat.ltb Nat.leb].
  unfold b58. rewrite base58_roundtrip by (now apply (proto_Marshal_nonempty machine)).
  rewrite (proto_roundtrip _ _ Hbin), HJ, Hrt. reflexivity.
Qed.

(** The parts of a web path, as the decoder splits it. *)
Lemma web_parts tag b58 q :
  allChars isAlnum tag = true -> allChars isAlnum b58 = true ->
  GoStrings.Split (tag +:+ "/" +:+ b58) "/" = [tag; b58]
  /\ GoStrings.Split ((tag +:+ "/" +:+ b58) +:+ "/" +:+ q) "/"
     = tag :: b58 :: GoStrings.Split q "/".
Proof.
  intros Ht Hb. split.
  - change (tag +:+ "/" +:+ b58) with (tag +:+ String "/" b58).
    rewrite Split_app by (now apply alnum_plain).
    now rewrite Split_none by (now apply alnum_plain).
  - rewrite append_assoc.
    change (tag +:+ ("/" +:+ b58) +:+ "/" +:+ q)
      with (tag +:+ String "/" (b58 +:+ String "/" q)).
    rewrite Split_app by (now apply alnum_plain).
    now rewrite Split_app by (now apply alnum_plain).
Qed.

Lemma rawFragment_web path :
  GoStrings.Join (tail (GoStrings.Split (LinkWebPrefix +:+ path) "#")) "#" = path.
Proof.
  change (LinkWebPrefix +:+ path) with ("https://berty.tech/id" +:+ String "#" path).
  rewrite Split_app by reflexivity. cbn [tail]. apply Join_Split.
Qed.

(** A valid contact record, taken apart. *)
Lemma valid_contact l :
  IsValid (Some l) = Returns None -> Kind l = BertyLink_ContactInviteV1Kind ->
  exists id,
    BertyID_ l = Some id
    /\ projectLink l
       = Returns (Some ("contact",
                        mkBertyLink BertyLink_UnknownKind
                          (Some (mkBertyID (PublicRendezvousSeed id) (AccountPK id) ""))
                          None,
                        (if negb (isEmptyString (ID_DisplayName id))
                         then {["name" := [ID_DisplayName id]]} else ∅),
                        l)).
Proof.
  intros Hv Hk. unfold IsValid in Hv. unfold projectLink. rewrite Hk in *.
  destruct (BertyID_ l) as [id|]; [|discriminate].
  exists id. split; [reflexivity|]. cbn [deref mbind outcome_bind].
  now rewrite Add_empty.
Qed.


(** C8: for every valid contact record, the blob of the web form, the
    second part of its fragment, is the base58 text of a record that holds
    the rendezvous seed and the account key of the input and nothing else:
    kind unset, no group, and an empty display name whatever the input's. *)
Theorem web_blob_contact `{!EncodeLaws E} (l : BertyLink) :
  IsValid (Some l) = Returns None ->
  Kind l = BertyLink_ContactInviteV1Kind ->
  exists internal web id machineBin,
    BertyID_ l = Some id
    /\ Marshal (Some l) = Returns (internal, web, None)
    /\ proto_Marshal
         (mkBertyLink BertyLink_UnknownKind
            (Some (mkBertyID (PublicRendezvousSeed id) (AccountPK id) EmptyString))
            None)
       = Ok machineBin
    /\ nth 1 (GoStrings.Split
                (GoStrings.Join (tail (GoStrings.Split web "#")) "#") "/")
             EmptyString
       = base58_Encode machineBin.
Proof.
  intros Hv Hk. destruct (valid_contact l Hv Hk) as (id & Hid & Hp).
  destruct qrBaseEncoder_some as [enc Hq].
  destruct (Marshal_valid l _ _ _ enc ltac:(congruence) Hv Hp Hq)
    as (machineBin & qrBin & Hm & _ & HM).
  eexists _, _, id, machineBin.
  split; [exact Hid|]. split; [exact HM|]. split; [exact Hm|].
  rewrite rawFragment_web.
  pose proof (base58_alnum machineBin) as Hb.
  destruct (web_parts "contact" (base58_Encode machineBin)
              (Values_Encode
                 (if negb (isEmptyString (ID_DisplayName id))
                  then {["name" := [ID_DisplayName id]]} else ∅))
              eq_refl Hb) as [H1 H2].
  destruct (0 <? size _)%nat; [rewrite H2 | rewrite H1]; reflexivity.
Qed.

(** C10: the internal format is decoded without a validity check: there are
    inputs [BERTY://PB/<blob>] on which [UnmarshalLink] succeeds and returns
    a record that [IsValid] rejects, one of kind Unknown and one of a group
    that is not multi-member. *)
Theorem internal_decoding_unchecked `{!ExternalsLaws E} :
  (exists blob e,
     UnmarshalLink ("BERTY://PB/" +:+ blob) = Returns (Some zeroBertyLink, None)
     /\ IsValid (Some zeroBertyLink) = Returns (Some e))
  /\ (exists blob e,
        UnmarshalLink ("BERTY://PB/" +:+ blob) = Returns (Some accountGroupLink, None)
        /\ IsValid (Some accountGroupLink) = Returns (Some e)).
Proof.
  destruct qrBaseEncoder_some as [enc Hq].
  split.
  - destruct (proto_Marshal_total zeroBertyLink) as [bin Hbin].
    exists (Basex.Encode enc bin), (Plain ErrInvalidInput). split; [|reflexivity].
    exact (UnmarshalLink_internal enc _ bin Hq (proto_roundtrip _ _ Hbin)).
  - destruct (proto_Marshal_total accountGroupLink) as [bin Hbin].
    eexists (Basex.Encode enc bin), _. split; [|reflexivity].
    exact (UnmarshalLink_internal enc _ bin Hq (proto_roundtrip _ _ Hbin)).
Qed.

(** C4 (the code at the failing input): on a group record whose
    [BertyGroup] is present and whose [Group] is nil, [IsValid] dereferences
    the nil pointer, and so does [Marshal], which calls it; neither returns
    an error. *)
Theorem IsValid_group_without_descriptor (id : option BertyID) (name : string) :
  IsValid (Some (mkBertyLink BertyLink_GroupV1Kind id (Some (mkBertyGroup None name))))
  = Panics
  /\ Marshal (Some (mkBertyLink BertyLink_GroupV1Kind id (Some (mkBertyGroup None name))))
     = Panics.
Proof. split; reflexivity. Qed.

(** C6: for every group record whose group type is not the multi-member
    one, [IsValid] returns an InvalidInput error and [Marshal] returns that
    error with the empty string for both the internal and the web form. *)
Theorem Marshal_rejects_group_type (l : BertyLink) (bg : BertyGroup) (g : Group) :
  Kind l = BertyLink_GroupV1Kind ->
  BertyGroup_ l = Some bg ->
  Group_ bg = Some g ->
  GroupType_ g <> GroupTypeMultiMember ->
  exists e,
    Code e = ErrInvalidInput
    /\ IsValid (Some l) = Returns (Some e)
    /\ Marshal (Some l) = Returns (EmptyString, EmptyString, Some e).
Proof.
  intros Hk Hbg Hg Ht.
  exists (Wrap ErrInvalidInput (Some (CantShareGroupType (GroupType_ g)))).
  assert (Hv : IsValid (Some l)
               = Returns (Some (Wrap ErrInvalidInput
                                  (Some (CantShareGroupType (GroupType_ g)))))).
  { unfold IsValid. rewrite Hk, Hbg, Hg. cbn [deref mbind outcome_bind].
    destruct (GroupType_ g); try reflexivity. congruence. }
  split; [reflexivity|]. split; [exact Hv|].
  unfold Marshal. rewrite Hk. cbn [Kind_eqb]. rewrite Hv. reflexivity.
Qed.

(** C7: in the web format, once the URL has parsed, the blob has been
    decoded into [link] and the query string into [human], the display name
    of the returned sub-record is the blob's own whenever the blob has one
    or the parameter [name] is empty, and is the parameter exactly when the
    parameter is not empty and the blob has none; the keys are the blob's.
    Stated for the contact tag and for the group tag. *)
Theorem web_name_merge (uri : string) (parsed : Url.URL) (tag blob : string)
    (rest : list string) (machineBin : list byte) (link : BertyLink)
    (human : Url.Values) :
  uri <> EmptyString ->
  GoStrings.HasPrefix (strings_ToLower uri) (strings_ToLower LinkInternalPrefix)
    = false ->
  GoStrings.HasPrefix (strings_ToLower uri) (strings_ToLower LinkWebPrefix)
    = true ->
  url_Parse uri = Ok parsed ->
  Url.Fragment parsed <> EmptyString ->
  GoStrings.Split (GoStrings.Join (tail (GoStrings.Split uri "#")) "#") "/"
    = tag :: blob :: rest ->
  base58_Decode blob = Ok machineBin ->
  proto_Unmarshal machineBin = Ok link ->
  match rest with
  | [] => Ok ∅
  | _ => url_ParseQuery (GoStrings.Join rest "/")
  end = Ok human ->
  (tag = "contact" ->
   exists id,
     UnmarshalLink uri
     = Returns (Some (mkBertyLink BertyLink_ContactInviteV1Kind (Some id)
                                  (BertyGroup_ link)), None)
     /\ PublicRendezvousSeed id
        = PublicRendezvousSeed (default zeroBertyID (BertyID_ link))
     /\ AccountPK id = AccountPK (default zeroBertyID (BertyID_ link))
     /\ let blobName := ID_DisplayName (default zeroBertyID (BertyID_ link)) in
        (blobName <> EmptyString -> ID_DisplayName id = blobName)
        /\ (Url.Get human "name" = EmptyString -> ID_DisplayName id = blobName)
        /\ (blobName = EmptyString -> ID_DisplayName id = Url.Get human "name"))
  /\ (tag = "group" ->
      exists bg,
        UnmarshalLink uri
        = Returns (Some (mkBertyLink BertyLink_GroupV1Kind (BertyID_ link)
                                     (Some bg)), None)
        /\ Group_ bg = Group_ (default zeroBertyGroup (BertyGroup_ link))
        /\ let blobName :=
             Group_DisplayName (default zeroBertyGroup (BertyGroup_ link)) in
           (blobName <> EmptyString -> Group_DisplayName bg = blobName)
           /\ (Url.Get human "name" = EmptyString -> Group_DisplayName bg = blobName)
           /\ (blobName = EmptyString -> Group_DisplayName bg = Url.Get human "name")).
Proof.
  intros Hne Hint Hweb Hparse Hfrag Hparts Hblob Hlink Hhuman.
  assert (HU : UnmarshalLink uri = merged (mergeHuman tag link human)).
  { unfold UnmarshalLink. destruct uri; [congruence|]. cbn [isEmptyString].
    rewrite Hint, Hweb. unfold unmarshalWeb. rewrite Hparse.
    destruct (Url.Fragment parsed); [congruence|]. cbn [isEmptyString].
    rewrite Hparts. cbn [length Nat.ltb Nat.leb]. rewrite Hblob, Hlink.
    destruct rest as [|part parts]; cbn [length Nat.ltb Nat.leb].
    - injection Hhuman as <-. reflexivity.
    - rewrite Hhuman. reflexivity. }
  rewrite HU. unfold mergeHuman. split; intros ->; cbn [String.eqb Ascii.eqb Bool.eqb andb].
  - destruct (default zeroBertyID (BertyID_ link)) as [seed pk blobName].
    cbn [ID_DisplayName PublicRendezvousSeed AccountPK].
    destruct (Url.Get human "name") as [|c name], blobName as [|d blobName];
      cbn [isEmptyString negb andb merged];
      eexists; (split; [reflexivity|]); cbn; repeat split; congruence.
  - destruct (default zeroBertyGroup (BertyGroup_ link)) as [g blobName].
    cbn [Group_DisplayName Group_].
    destruct (Url.Get human "name") as [|c name], blobName as [|d blobName];
      cbn [isEmptyString negb andb merged];
      eexists; (split; [reflexivity|]); cbn; repeat split; congruence.
Qed.

(** C9: on the empty string [UnmarshalLink] returns MissingInput; on any
    other string every error it returns is InvalidInput, so MissingInput is
    returned on the empty string only; and a non-empty string whose
    lower-casing starts with neither lower-cased prefix gets InvalidInput. *)
Theorem UnmarshalLink_dispatch (uri : string) :
  (uri = EmptyString ->
   UnmarshalLink uri = Returns (None, Some (Plain ErrMissingInput)))
  /\ (uri <> EmptyString ->
      forall r e, UnmarshalLink uri = Returns (r, Some e) ->
                  Code e = ErrInvalidInput)
  /\ (uri <> EmptyString ->
      GoStrings.HasPrefix (strings_ToLower uri) (strings_ToLower LinkInternalPrefix)
        = false ->
      GoStrings.HasPrefix (strings_ToLower uri) (strings_ToLower LinkWebPrefix)
        = false ->
      exists e,
        Code e = ErrInvalidInput /\ UnmarshalLink uri = Returns (None, Some e)).
Proof.
  split; [intros ->; reflexivity|]. split.
  - intros Hne r e. unfold UnmarshalLink.
    destruct uri as [|c uri]; [congruence|]. cbn [isEmptyString].
    unfold unmarshalInternal, unmarshalWeb, GoStrings.sliceFrom, merged, failLink,
      wrapLib.
    unfold mbind, outcome_bind, deref.
    split_branches; intros H; inversion H; subst; reflexivity.
  - intros Hne Hint Hweb. unfold UnmarshalLink.
    destruct uri as [|c uri]; [congruence|]. cbn [isEmptyString].
    rewrite Hint, Hweb. eexists. split; [|reflexivity]. reflexivity.
Qed.

End LinkProperties.

(** * The reference collaborators keep the contracts *)

(** ** The serializer *)

Lemma getVarint_putVarint fuel : forall n rest,
  0 <= n -> (Z.to_nat n <= fuel)%nat ->
  Ref.getVarint (Ref.putVarint fuel n ++ rest) = Some (n, rest).
Proof.
  induction fuel as [|fuel IH]; intros n rest Hn Hf.
  - assert (n = 0) as -> by lia. reflexivity.
  - cbn [Ref.putVarint]. destruct (Z.ltb_spec n 128) as [Hlt|Hge].
    + cbn [app Ref.getVarint]. rewrite byte_to_Z_to_byte by lia.
      destruct (Z.ltb_spec n 128); [reflexivity | lia].
    + cbn [app Ref.getVarint].
      pose proof (Z.mod_pos_bound n 128 ltac:(lia)) as Hm.
      rewrite byte_to_Z_to_byte by lia.
      destruct (Z.ltb_spec (128 + n mod 128) 128); [lia|].
      assert (0 <= n / 128 < n) by (split; [apply Z.div_pos | apply Z.div_lt]; lia).
      rewrite IH by lia. f_equal. f_equal.
      pose proof (Z.div_mod n 128 ltac:(lia)). lia.
Qed.

Lemma byte_eqb_refl t : Byte.eqb t t = true.
Proof. now apply Byte.byte_dec_lb. Qed.

Lemma takeLen_lenField tag payload rest :
  Ref.takeLen tag (Ref.lenField tag payload ++ rest) = Some (Some payload, rest).
Proof.
  unfold Ref.lenField. cbn [app Ref.takeLen]. rewrite byte_eqb_refl.
  rewrite <- app_assoc, getVarint_putVarint by lia.
  cbn [mbind option_bind]. rewrite Nat2Z.id, length_app.
  destruct (Nat.ltb_spec (length payload + length rest) (length payload)); [lia|].
  now rewrite take_app_length, drop_app_length.
Qed.

Lemma takeLen_lenField_end tag payload :
  Ref.takeLen tag (Ref.lenField tag payload) = Some (Some payload, []).
Proof. rewrite <- (app_nil_r (Ref.lenField tag payload)). apply takeLen_lenField. Qed.

Lemma takeEnum_present tag v rest :
  Ref.takeEnum tag (tag :: v :: rest) = Some (byte_to_Z v, rest).
Proof. cbn [Ref.takeEnum]. now rewrite byte_eqb_refl. Qed.

Lemma takeLen_absent tag bs :
  startsWith tag bs = false -> Ref.takeLen tag bs = Some (None, bs).
Proof. destruct bs as [|t bs]; [reflexivity|]. cbn. now intros ->. Qed.

Lemma takeEnum_absent tag bs :
  startsWith tag bs = false -> Ref.takeEnum tag bs = Some (0, bs).
Proof. destruct bs as [|t bs]; [reflexivity|]. cbn. now intros ->. Qed.

Ltac read_fields :=
  repeat first
    [ rewrite takeLen_lenField
    | rewrite takeLen_lenField_end
    | rewrite takeEnum_present
    | rewrite takeLen_absent by reflexivity
    | rewrite takeEnum_absent by reflexivity
    | progress cbn [mbind option_bind Ref.atEnd Ref.stringOf Ref.nested app] ].

(** What the serializer writes reads back as the record proto3 keeps. *)
Lemma getGroup_putGroup g : Ref.getGroup (Ref.putGroup g) = Some (canonicalGroup g).
Proof.
  destruct g as [[[|b1 pk]|] [[|b2 secret]|] [[|b3 sig]|] gt [[|b4 signPub]|]];
    destruct gt;
    unfold Ref.getGroup, Ref.putGroup;
    cbn [Ref.bytesField Ref.enumField Ref.groupTypeNumber PublicKey Secret
         SecretSig GroupType_ SignPub Z.eqb app];
    read_fields; reflexivity.
Qed.

Lemma getBertyID_putBertyID id :
  Ref.getBertyID (Ref.putBertyID id) = Some (canonicalID id).
Proof.
  destruct id as [[[|b1 seed]|] [[|b2 pk]|] [|c name]];
    unfold Ref.getBertyID, Ref.putBertyID;
    cbn [Ref.bytesField Ref.stringField isEmptyString PublicRendezvousSeed
         AccountPK ID_DisplayName app];
    read_fields; rewrite ?string_of_list_byte_of_string; reflexivity.
Qed.

Lemma getBertyGroup_putBertyGroup bg :
  Ref.getBertyGroup (Ref.putBertyGroup bg) = Some (canonicalBertyGroup bg).
Proof.
  destruct bg as [[g|] [|c name]];
    unfold Ref.getBertyGroup, Ref.putBertyGroup;
    cbn [Ref.messageField Ref.stringField isEmptyString Group_ Group_DisplayName
         app fmap option_fmap option_map];
    read_fields; rewrite ?getGroup_putGroup; read_fields;
    rewrite ?string_of_list_byte_of_string; reflexivity.
Qed.

Lemma getBertyLink_putBertyLink l :
  Ref.getBertyLink (Ref.putBertyLink l) = Some (canonicalLink l).
Proof.
  destruct l as [kind [id|] [bg|]]; destruct kind;
    unfold Ref.getBertyLink, Ref.putBertyLink;
    cbn [Ref.messageField Ref.enumField Ref.kindNumber Kind BertyID_ BertyGroup_
         Z.eqb app fmap option_fmap option_map];
    read_fields;
    rewrite ?getBertyID_putBertyID, ?getBertyGroup_putBertyGroup;
    read_fields; reflexivity.
Qed.

(** ** Escaping *)

Lemma unescape_escape_char c rest :
  Ref.unescape true (Ref.QueryEscape (String c rest))
  = Ref.consResult c (Ref.unescape true (Ref.QueryEscape rest)).
Proof. each_ascii c; reflexivity. Qed.

Lemma unescape_QueryEscape s : Ref.unescape true (Ref.QueryEscape s) = Ok s.
Proof.
  induction s as [|c s IH]; [reflexivity|].
  now rewrite unescape_escape_char, IH.
Qed.

Lemma wellEscaped_escape_char c rest :
  wellEscaped (Ref.QueryEscape (String c rest)) = wellEscaped (Ref.QueryEscape rest).
Proof. each_ascii c; reflexivity. Qed.

Lemma wellEscaped_QueryEscape s : wellEscaped (Ref.QueryEscape s) = true.
Proof.
  induction s as [|c s IH]; [reflexivity|]. now rewrite wellEscaped_escape_char.
Qed.

Lemma queryPlain_escape_char c rest :
  allChars queryPlain (Ref.QueryEscape (String c rest))
  = allChars queryPlain (Ref.QueryEscape rest).
Proof. each_ascii c; reflexivity. Qed.

Lemma queryPlain_QueryEscape s : allChars queryPlain (Ref.QueryEscape s) = true.
Proof.
  induction s as [|c s IH]; [reflexivity|]. now rewrite queryPlain_escape_char.
Qed.

Lemma unescape_wellEscaped s :
  wellEscaped s = true ->
  exists f, Ref.unescape false s = Ok f /\ (s <> EmptyString -> f <> EmptyString).
Proof.
  assert (H : forall n s, (String.length s <= n)%nat -> wellEscaped s = true ->
             exists f, Ref.unescape false s = Ok f
                       /\ (s <> EmptyString -> f <> EmptyString)).
  { induction n as [|n IH]; intros [|c s'] Hlen Hw;
      try (exists EmptyString; split; [reflexivity | congruence]).
    - cbn in Hlen. lia.
    - cbn [wellEscaped Ref.unescape] in Hw |- *.
      destruct (Ascii.eqb c "%").
      + destruct s' as [|h1 [|h2 s'']]; try discriminate.
        apply andb_true_iff in Hw as [Hh Hw].
        apply andb_true_iff in Hh as [Hh1 Hh2].
        destruct (IH s'' ltac:(cbn in Hlen |- *; lia) Hw) as (f & Hf & _).
        assert (Hx : forall h, isHex h = true -> exists a, Ref.unhex h = Some a).
        { intros h Hh. each_ascii h; try discriminate; eexists; reflexivity. }
        destruct (Hx h1 Hh1) as [a ->]. destruct (Hx h2 Hh2) as [b ->].
        rewrite Hf. eexists. split; [reflexivity | discriminate].
      + destruct (IH s' ltac:(cbn in Hlen; lia) Hw) as (f & Hf & _).
        cbn [andb]. rewrite Hf. eexists. split; [reflexivity | discriminate]. }
  intros Hw. now apply (H (String.length s)).
Qed.

(** ** Query strings *)

Lemma wellEscaped_Join pieces :
  Forall (fun p => wellEscaped p = true) pieces ->
  wellEscaped (GoStrings.Join pieces "&") = true.
Proof.
  induction 1 as [|p ps Hp Hps IH]; [reflexivity|].
  destruct ps as [|q ps]; [exact Hp|].
  rewrite Join_cons by discriminate.
  apply wellEscaped_app; [exact Hp|]. exact IH.
Qed.

Lemma ValuesEncode_escaped v : wellEscaped (Ref.ValuesEncode v) = true.
Proof.
  unfold Ref.ValuesEncode. apply wellEscaped_Join.
  apply List.Forall_forall. intros p Hp.
  apply in_concat in Hp as (ps & Hps & Hp).
  apply in_map_iff in Hps as ([k vs] & <- & _).
  unfold Ref.encodeKey in Hp. apply in_map_iff in Hp as (value & <- & _).
  apply wellEscaped_app; [apply wellEscaped_QueryEscape|].
  change (String "=" (Ref.QueryEscape value)) with ("=" +:+ Ref.QueryEscape value).
  rewrite wellEscaped_app_plain by reflexivity. apply wellEscaped_QueryEscape.
Qed.

Lemma ValuesEncode_singleton key value :
  Ref.ValuesEncode {[key := [value]]}
  = Ref.QueryEscape key +:+ String "=" (Ref.QueryEscape value).
Proof. unfold Ref.ValuesEncode. now rewrite map_to_list_singleton. Qed.

Lemma querySegments_plain s :
  allChars queryPlain s = true -> Ref.querySegments s = [s].
Proof.
  induction s as [|c s IH]; [reflexivity|]. cbn [allChars Ref.querySegments].
  intros [Hc Hs]%andb_true_iff. rewrite (IH Hs).
  unfold queryPlain in Hc.
  destruct (Ascii.eqb c "&"), (Ascii.eqb c ";"); try discriminate. reflexivity.
Qed.

Lemma querySegments_pair a b :
  allChars queryPlain a = true -> allChars queryPlain b = true ->
  Ref.querySegments (a +:+ String "=" b) = [a +:+ String "=" b].
Proof.
  intros Ha Hb. induction a as [|c a IH].
  - rewrite append_nil. cbn [Ref.querySegments].
    now rewrite (querySegments_plain b Hb).
  - cbn [allChars] in Ha. apply andb_true_iff in Ha as [Hc Ha].
    rewrite append_cons. cbn [Ref.querySegments]. rewrite (IH Ha).
    unfold queryPlain in Hc.
    destruct (Ascii.eqb c "&"), (Ascii.eqb c ";"); try discriminate. reflexivity.
Qed.

Lemma cutEquals_pair a b :
  allChars queryPlain a = true -> Ref.cutEquals (a +:+ String "=" b) = (a, b).
Proof.
  induction a as [|c a IH]; intros Ha; [reflexivity|].
  cbn [allChars] in Ha. apply andb_true_iff in Ha as [Hc Ha].
  rewrite append_cons. cbn [Ref.cutEquals]. rewrite (IH Ha).
  unfold queryPlain in Hc. destruct (Ascii.eqb c "="); [|reflexivity].
  rewrite andb_false_r in Hc. discriminate.
Qed.

Lemma ParseQuery_Encode key value :
  Ref.ParseQuery (Ref.ValuesEncode {[key := [value]]}) = Ok {[key := [value]]}.
Proof.
  rewrite ValuesEncode_singleton. unfold Ref.ParseQuery.
  rewrite querySegments_pair by apply queryPlain_QueryEscape.
  cbn [fold_left Ref.parseSegment].
  assert (Hne : isEmptyString
                  (Ref.QueryEscape key +:+ String "=" (Ref.QueryEscape value))
                = false) by (destruct (Ref.QueryEscape key); reflexivity).
  rewrite Hne, cutEquals_pair by apply queryPlain_QueryEscape.
  now rewrite !unescape_QueryEscape, Add_empty.
Qed.

(** ** base58 *)

Lemma base58Encoder_base : option_map Basex.base Ref.base58Encoder = Some 58.
Proof. vm_compute. reflexivity. Qed.

Lemma base58_alphabet_alnum :
  match Ref.base58Encoder with
  | Some e => forallb isAlnum (Basex.alphabet e)
  | None => false
  end = true.
Proof. vm_compute. reflexivity. Qed.

Lemma allChars_Forall (p : ascii -> bool) s :
  Forall (fun c => p c = true) (list_ascii_of_string s) -> allChars p s = true.
Proof.
  induction s as [|c s IH]; [reflexivity|]. cbn. intros H.
  inversion H as [|? ? Hc Hs]; subst. now rewrite Hc, IH.
Qed.

Lemma base58Decode_Encode bin :
  bin <> [] -> Ref.base58Decode (Ref.base58Encode bin) = Ok bin.
Proof.
  intros Hne. unfold Ref.base58Decode, Ref.base58Encode.
  pose proof base58Encoder_base as Hb.
  destruct Ref.base58Encoder as [e|] eqn:He; [|discriminate].
  injection Hb as Hb. unfold Ref.base58Encoder in He.
  destruct (NewEncoding_spec _ _ He) as [_ Hmap].
  pose proof (Decode_Encode e ltac:(lia) Hmap bin) as Hrt.
  destruct (Basex.Encode e bin) eqn:Henc; [|exact Hrt].
  cbn in Hrt. congruence.
Qed.

Lemma base58Encode_alnum bin : allChars isAlnum (Ref.base58Encode bin) = true.
Proof.
  unfold Ref.base58Encode.
  pose proof base58Encoder_base as Hb. pose proof base58_alphabet_alnum as Ha.
  destruct Ref.base58Encoder as [e|] eqn:He; [|discriminate].
  injection Hb as Hb. unfold Ref.base58Encoder in He.
  destruct (NewEncoding_spec _ _ He) as [Hlen Hmap].
  apply allChars_Forall.
  eapply List.Forall_impl; [|exact (Encode_alphabet e ltac:(lia) bin Hlen)].
  intros c Hc. rewrite forallb_forall in Ha. now apply Ha.
Qed.

(** ** All contracts *)

Lemma Parse_fragment frag :
  frag <> EmptyString -> wellEscaped frag = true ->
  exists u, Ref.Parse (LinkWebPrefix +:+ frag) = Ok u
            /\ Url.Fragment u <> EmptyString.
Proof.
  intros Hne Hw. destruct (unescape_wellEscaped frag Hw) as (f & Hf & Hfne).
  exists (Url.mkURL f). split; [|exact (Hfne Hne)].
  unfold Ref.Parse.
  change (LinkWebPrefix +:+ frag) with ("https://berty.tech/id" +:+ String "#" frag).
  rewrite Split_app by reflexivity.
  change (Ref.anyChar Ref.isCTL "https://berty.tech/id") with false. cbv iota.
  now rewrite Join_Split, Hf.
Qed.

#[global] Instance Ref_lower : LowerLaws Ref.externals.
Proof. split; reflexivity. Qed.

#[global] Instance Ref_encode : EncodeLaws Ref.externals.
Proof.
  split.
  - intros l. eexists. reflexivity.
  - exact base58Encode_alnum.
Qed.

#[global] Instance Ref_laws : ExternalsLaws Ref.externals.
Proof.
  split.
  - exact Ref_lower.
  - exact Ref_encode.
  - intros l b Hb. injection Hb as <-. cbn. unfold Ref.protoUnmarshal.
    now rewrite getBertyLink_putBertyLink.
  - reflexivity.
  - exact base58Decode_Encode.
  - exact Parse_fragment.
  - exact ValuesEncode_escaped.
  - exact ParseQuery_Encode.
Qed.

(** * The validator and the alphabet *)



(** C3, as stated, fails: the alphabet of [qrBaseEncoder] has 42
    characters and the encoder works in base 42. *)
Lemma qrBaseEncoder_has_42_symbols :
  option_map (fun e => length (Basex.alphabet e)) qrBaseEncoder = Some 42%nat
  /\ option_map Basex.base qrBaseEncoder = Some 42.
Proof. split; vm_compute; reflexivity. Qed.

Lemma memberOf_In l c : memberOf l c = true <-> In c l.
Proof.
  unfold memberOf. rewrite existsb_exists. split.
  - intros (x & Hx & ->%Ascii.eqb_eq). exact Hx.
  - intros Hc. exists c. split; [exact Hc | apply Ascii.eqb_refl].
Qed.

(** C3, amended: the alphabet of [qrBaseEncoder] holds exactly the
    characters of the 45-character QR alphanumeric set other than space,
    percent and plus, each once: 42 characters, and the encoder works in
    base 42. *)
Theorem qrBaseEncoder_alphabet :
  exists e,
    qrBaseEncoder = Some e
    /\ (forall c, In c (Basex.alphabet e)
                  <-> In c qrAlphanumericMode /\ ~ In c removedFromQR)
    /\ NoDup (Basex.alphabet e)
    /\ length qrAlphanumericMode = 45%nat
    /\ length removedFromQR = 3%nat
    /\ length (Basex.alphabet e) = 42%nat
    /\ Basex.base e = 42.
Proof.
  destruct qrBaseEncoder as [e|] eqn:Hq; [|vm_compute in Hq; discriminate].
  exists e. split; [reflexivity|].
  assert (Ha : Basex.alphabet e
               = list_ascii_of_string "ABCDEFGHIJKLMNOPQRSTUVWXYZ0123456789$*-.:/").
  { unfold qrBaseEncoder, Basex.NewEncoding in Hq.
    destruct (Basex.fillMap _ 0 ∅); [|discriminate]. now inversion Hq. }
  pose proof qrBaseEncoder_base as Hb. rewrite Hq in Hb. injection Hb as Hb.
  rewrite Ha.
  split; [|split; [|repeat split; try reflexivity; exact Hb]].
  - intros c. split; [intros Hc; split | intros [Hc Hn]].
    + apply memberOf_In. apply memberOf_In in Hc. revert Hc.
      each_ascii c; vm_compute; congruence.
    + intros Hr. apply memberOf_In in Hc, Hr. revert Hc Hr.
      each_ascii c; vm_compute; congruence.
    + apply memberOf_In. apply memberOf_In in Hc.
      assert (Hr : memberOf removedFromQR c = false).
      { destruct (memberOf removedFromQR c) eqn:Hm; [|reflexivity].
        apply memberOf_In in Hm. contradiction. }
      revert Hc Hr. each_ascii c; vm_compute; congruence.
  - apply (bool_decide_unpack (NoDup _)). vm_compute. exact I.
Qed.

(** * Concrete records *)

Example alice_links :
  Marshal (E := Ref.externals) (Some alice)
  = Returns ("BERTY://PB/ONAHR$WX6U.6B:$EAGQ4COIU.2C015.L",
             "https://berty.tech/id#contact/2WAatYBcimc2zdX4wD/name=Alice",
             None).
Proof. vm_compute. reflexivity. Qed.

Example unmarshal_empty_blob :
  UnmarshalLink (E := Ref.externals) "BERTY://PB/"
  = Returns (Some zeroBertyLink, None).
Proof. vm_compute. reflexivity. Qed.

Example unmarshal_other_type :
  UnmarshalLink (E := Ref.externals) "BERTY://XY/ABC"
  = Returns (None, Some (Wrap ErrInvalidInput (Some (UnsupportedLinkType "XY")))).
Proof. vm_compute. reflexivity. Qed.

Example unmarshal_group_without_query :
  UnmarshalLink (E := Ref.externals) "https://berty.tech/id#group/VW1cEfig2pWuWfoQ"
  = Returns
      (Some (mkBertyLink BertyLink_GroupV1Kind None
               (Some (mkBertyGroup
                        (Some (mkGroup (Some [x01]) (Some [x02]) None
                                       GroupTypeMultiMember None))
                        EmptyString))), None).
Proof. vm_compute. reflexivity. Qed.

(** C1, as stated, fails: the contact record whose account key is empty
    but not nil is accepted by the validator, and its internal form reads
    back with a nil account key, which is another record, and one the
    validator rejects. *)
Lemma internal_roundtrip_loses_empty_key :
  IsValid (Some emptyKeyContact) = Returns None
  /\ Marshal (E := Ref.externals) (Some emptyKeyContact)
     = Returns ("BERTY://PB/FW201Y/C:7", "https://berty.tech/id#contact/32s5GJk",
                None)
  /\ UnmarshalLink (E := Ref.externals) "BERTY://PB/FW201Y/C:7"
     = Returns (Some nilKeyContact, None)
  /\ nilKeyContact <> emptyKeyContact
  /\ IsValid (Some nilKeyContact) = Returns (Some (Plain ErrMissingInput)).
Proof.
  split; [reflexivity|]. split; [vm_compute; reflexivity|].
  split; [vm_compute; reflexivity|]. split; [discriminate | reflexivity].
Qed.

(** C1, amended, at [alice]. *)
Lemma internal_roundtrip_up_to_nil_alice :
  exists internal web,
    Marshal (E := Ref.externals) (Some alice) = Returns (internal, web, None)
    /\ UnmarshalLink (E := Ref.externals) internal
       = Returns (Some (canonicalLink alice), None)
    /\ (wireExact alice ->
        UnmarshalLink (E := Ref.externals) internal = Returns (Some alice, None)).
Proof.
  apply (internal_roundtrip_up_to_nil (E := Ref.externals) alice). reflexivity.
Defined.



(** C8 at [alice]. *)
Lemma web_blob_alice :
  exists internal web id machineBin,
    BertyID_ alice = Some id
    /\ Marshal (E := Ref.externals) (Some alice) = Returns (internal, web, None)
    /\ proto_Marshal (Externals := Ref.externals)
         (mkBertyLink BertyLink_UnknownKind
            (Some (mkBertyID (PublicRendezvousSeed id) (AccountPK id) EmptyString))
            None)
       = Ok machineBin
    /\ nth 1 (GoStrings.Split
                (GoStrings.Join (tail (GoStrings.Split web "#")) "#") "/")
             EmptyString
       = base58_Encode (Externals := Ref.externals) machineBin.
Proof.
  apply (web_blob_contact (E := Ref.externals) alice); reflexivity.
Defined.

(** C6 at the group of type account. *)
Lemma Marshal_rejects_account_group :
  exists e,
    Code e = ErrInvalidInput
    /\ IsValid (Some accountGroupLink) = Returns (Some e)
    /\ Marshal (E := Ref.externals) (Some accountGroupLink)
       = Returns (EmptyString, EmptyString, Some e).
Proof.
  eapply (Marshal_rejects_group_type (E := Ref.externals) accountGroupLink);
    [reflexivity | reflexivity | reflexivity | discriminate].
Defined.

(** C7 at a web link whose blob names Bob and whose query string names
    Alice: the blob's name is kept. *)
Lemma web_name_merge_bob :
  exists id,
    UnmarshalLink (E := Ref.externals)
      "https://berty.tech/id#contact/2WAatRf8pyXWEju1Z3/name=Alice"
    = Returns (Some (mkBertyLink BertyLink_ContactInviteV1Kind (Some id) None),
               None)
    /\ ID_DisplayName id = "Bob".
Proof.
  destruct (web_name_merge (E := Ref.externals)
              "https://berty.tech/id#contact/2WAatRf8pyXWEju1Z3/name=Alice"
              (Url.mkURL "contact/2WAatRf8pyXWEju1Z3/name=Alice")
              "contact" "2WAatRf8pyXWEju1Z3" ["name=Alice"]
              (Ref.putBertyLink bobMachine) bobMachine
              {["name" := ["Alice"]]})
    as [Hcontact _];
    [ discriminate | reflexivity | reflexivity | reflexivity | discriminate
    | reflexivity | vm_compute; reflexivity | reflexivity
    | vm_compute; reflexivity | ].
  destruct (Hcontact eq_refl) as (id & HU & _ & _ & Hkeep & _ & _).
  exists id. split; [exact HU | apply Hkeep; discriminate].
Defined.

(** C9 at a string with neither prefix. *)
Lemma UnmarshalLink_dispatch_mailto :
  exists e,
    Code e = ErrInvalidInput
    /\ UnmarshalLink (E := Ref.externals) "mailto:alice@example.org"
       = Returns (None, Some e).
Proof.
  apply (proj2 (proj2 (UnmarshalLink_dispatch (E := Ref.externals)
                         "mailto:alice@example.org")));
    [discriminate | reflexivity | reflexivity].
Defined.

(** C10 with the reference collaborators. *)
Lemma internal_decoding_unchecked_ref :
  (exists blob e,
     UnmarshalLink (E := Ref.externals) ("BERTY://PB/" +:+ blob)
     = Returns (Some zeroBertyLink, None)
     /\ IsValid (Some zeroBertyLink) = Returns (Some e))
  /\ (exists blob e,
        UnmarshalLink (E := Ref.externals) ("BERTY://PB/" +:+ blob)
        = Returns (Some accountGroupLink, None)
        /\ IsValid (Some accountGroupLink) = Returns (Some e)).
Proof. exact (internal_decoding_unchecked (E := Ref.externals)). Defined.

(** * More of [links.go] *)

(** ** The validator and its two callers *)

(** X1: [IsValid] accepts a record exactly when it is a contact record whose
    [BertyID] is set with both keys non-nil, or a group record whose
    [BertyGroup] and [Group] are set and whose group type is multi-member. *)
Theorem IsValid_accepts_iff (l : BertyLink) :
  IsValid (Some l) = Returns None <->
  (Kind l = BertyLink_ContactInviteV1Kind
   /\ exists id seed pk,
        BertyID_ l = Some id /\ PublicRendezvousSeed id = Some seed
        /\ AccountPK id = Some pk)
  \/ (Kind l = BertyLink_GroupV1Kind
      /\ exists bg g,
           BertyGroup_ l = Some bg /\ Group_ bg = Some g
           /\ GroupType_ g = GroupTypeMultiMember).
Proof.
  unfold IsValid. split.
  - destruct (Kind l); [discriminate| |].
    + destruct (BertyID_ l) as [[[seed|] [pk|] name]|]; try discriminate.
      intros _. left. split; [reflexivity|]. eexists _, seed, pk. now repeat split.
    + destruct (BertyGroup_ l) as [[[g|] name]|]; try discriminate.
      cbn [deref mbind outcome_bind Group_].
      destruct (GroupType_ g) eqn:Hg; try discriminate.
      intros _. right. split; [reflexivity|]. eexists _, g. now repeat split.
  - intros [(-> & id & seed & pk & -> & Hs & Hp)|(-> & bg & g & -> & Hg & Ht)].
    + now rewrite Hs, Hp.
    + rewrite Hg. cbn [deref mbind outcome_bind]. now rewrite Ht.
Qed.

Lemma IsValid_panics (link : option BertyLink) :
  IsValid link = Panics <-> groupWithoutDescriptor link.
Proof.
  unfold groupWithoutDescriptor, IsValid. split.
  - destruct link as [l|]; [|discriminate].
    destruct (Kind l) eqn:Hk; [discriminate| |].
    + destruct (BertyID_ l) as [id|]; [|discriminate].
      destruct (isNil (AccountPK id) || isNil (PublicRendezvousSeed id)); discriminate.
    + destruct (BertyGroup_ l) as [bg|] eqn:Hbg; [|discriminate].
      destruct (Group_ bg) as [g|] eqn:Hg.
      * cbn [deref mbind outcome_bind].
        destruct (negb (GroupType_eqb (GroupType_ g) GroupTypeMultiMember)); discriminate.
      * intros _. now exists l, bg.
  - intros (l & bg & -> & -> & -> & ->). reflexivity.
Qed.

(** X2: [IsContact] and [IsGroup] answer true exactly on the valid records
    of their kind, so never both on one record; on a non-nil record
    [IsContact] always returns, while [IsGroup] panics exactly on a group
    record whose [Group] is nil; on the nil record both panic. *)
Theorem IsContact_IsGroup (l : BertyLink) :
  (IsContact (Some l) = Returns true <->
   Kind l = BertyLink_ContactInviteV1Kind /\ IsValid (Some l) = Returns None)
  /\ (IsGroup (Some l) = Returns true <->
      Kind l = BertyLink_GroupV1Kind /\ IsValid (Some l) = Returns None)
  /\ ~ (IsContact (Some l) = Returns true /\ IsGroup (Some l) = Returns true)
  /\ (exists b, IsContact (Some l) = Returns b)
  /\ (IsGroup (Some l) = Panics <-> groupWithoutDescriptor (Some l))
  /\ IsContact None = Panics /\ IsGroup None = Panics.
Proof.
  assert (HC : IsContact (Some l) = Returns true <->
               Kind l = BertyLink_ContactInviteV1Kind
               /\ IsValid (Some l) = Returns None).
  { unfold IsContact. cbn [deref mbind outcome_bind].
    destruct (Kind l) eqn:Hk; cbn [Kind_eqb];
      [split; [discriminate | intros [? _]; discriminate] |
      | split; [discriminate | intros [? _]; discriminate]].
    destruct (IsValid (Some l)) as [[e|]|]; cbn [isNil];
      split; try discriminate; try (intros [_ ?]; discriminate); auto. }
  assert (HG : IsGroup (Some l) = Returns true <->
               Kind l = BertyLink_GroupV1Kind
               /\ IsValid (Some l) = Returns None).
  { unfold IsGroup. cbn [deref mbind outcome_bind].
    destruct (Kind l) eqn:Hk; cbn [Kind_eqb];
      [split; [discriminate | intros [? _]; discriminate]
      | split; [discriminate | intros [? _]; discriminate] |].
    destruct (IsValid (Some l)) as [[e|]|]; cbn [isNil];
      split; try discriminate; try (intros [_ ?]; discriminate); auto. }
  split; [exact HC|]. split; [exact HG|]. split; [|split; [|split]].
  - intros [[Hc _]%HC [Hg _]%HG]. congruence.
  - unfold IsContact, IsValid. cbn [deref mbind outcome_bind].
    destruct (Kind l); cbn [Kind_eqb]; try (eexists; reflexivity).
    destruct (BertyID_ l) as [id|]; [|eexists; reflexivity].
    destruct (isNil (AccountPK id) || isNil (PublicRendezvousSeed id));
      eexists; reflexivity.
  - rewrite <- IsValid_panics. unfold IsGroup. cbn [deref mbind outcome_bind].
    destruct (Kind l) eqn:Hk; cbn [Kind_eqb].
    + split; [discriminate|]. unfold IsValid. rewrite Hk. discriminate.
    + split; [discriminate|]. unfold IsValid. rewrite Hk.
      destruct (BertyID_ l) as [id|]; [|discriminate].
      destruct (isNil (AccountPK id) || isNil (PublicRendezvousSeed id)); discriminate.
    + destruct (IsValid (Some l)) as [[e|]|]; split; try discriminate; reflexivity.
  - split; reflexivity.
Qed.

(** ** What [Marshal] returns *)

Lemma qrBaseEncoder_symbols enc :
  qrBaseEncoder = Some enc ->
  Basex.alphabet enc
  = list_ascii_of_string "ABCDEFGHIJKLMNOPQRSTUVWXYZ0123456789$*-.:/"
  /\ Basex.base enc = 42.
Proof.
  intros Hq. pose proof qrBaseEncoder_base as Hb. rewrite Hq in Hb.
  injection Hb as Hb. split; [|exact Hb].
  unfold qrBaseEncoder, Basex.NewEncoding in Hq.
  destruct (Basex.fillMap _ 0 ∅); [|discriminate]. now inversion Hq.
Qed.

Lemma Forall_allChars (p : ascii -> bool) s :
  allChars p s = true -> Forall (fun c => p c = true) (list_ascii_of_string s).
Proof.
  induction s as [|c s IH]; [constructor|]. cbn.
  intros [Hc Hs]%andb_true_iff. constructor; [exact Hc | now apply IH].
Qed.

(** The text of the QR encoder stays in the QR alphanumeric set. *)
Lemma qr_Encode_alphanumeric enc bin :
  qrBaseEncoder = Some enc ->
  allChars (memberOf qrAlphanumericMode) (Basex.Encode enc bin) = true.
Proof.
  intros Hq. destruct (qrBaseEncoder_symbols enc Hq) as [Ha Hb].
  apply allChars_Forall.
  eapply List.Forall_impl;
    [|apply (Encode_alphabet enc ltac:(lia) bin); rewrite Ha, Hb; reflexivity].
  intros c Hc. rewrite Ha in Hc.
  assert (Hall : forallb (memberOf qrAlphanumericMode)
                   (list_ascii_of_string "ABCDEFGHIJKLMNOPQRSTUVWXYZ0123456789$*-.:/")
                 = true) by (vm_compute; reflexivity).
  rewrite forallb_forall in Hall. now apply Hall.
Qed.

Lemma projectLink_inv l kind machine human qr :
  projectLink l = Returns (Some (kind, machine, human, qr)) ->
  qr = l /\ kind = kindTag (Kind l).
Proof.
  unfold projectLink. destruct (Kind l); [discriminate| |].
  - destruct (BertyID_ l) as [id|]; [|discriminate]. cbn [deref mbind outcome_bind].
    intros H. now inversion H.
  - destruct (BertyGroup_ l) as [bg|]; [|discriminate]. cbn [deref mbind outcome_bind].
    destruct (Group_ bg) as [g|]; [|discriminate]. cbn [deref mbind outcome_bind].
    intros H. now inversion H.
Qed.

Section MarshalProperties.
Context {E : Externals}.

(** A successful [Marshal], taken apart. *)
Lemma Marshal_success_inv link internal web :
  Marshal link = Returns (internal, web, None) ->
  exists l machine human machineBin qrBin enc,
    link = Some l /\ IsValid (Some l) = Returns None
    /\ projectLink l = Returns (Some (kindTag (Kind l), machine, human, l))
    /\ proto_Marshal machine = Ok machineBin /\ proto_Marshal l = Ok qrBin
    /\ qrBaseEncoder = Some enc
    /\ internal = LinkInternalPrefix +:+ "PB/" +:+ Basex.Encode enc qrBin
    /\ web = LinkWebPrefix +:+
             (if (0 <? size human)%nat
              then (kindTag (Kind l) +:+ "/" +:+ base58_Encode machineBin)
                   +:+ "/" +:+ Values_Encode human
              else kindTag (Kind l) +:+ "/" +:+ base58_Encode machineBin).
Proof.
  unfold Marshal. destruct link as [l|]; [|discriminate].
  destruct (Kind_eqb (Kind l) BertyLink_UnknownKind); [discriminate|].
  destruct (IsValid (Some l)) as [[e|]|] eqn:Hv; try discriminate.
  cbn [mbind outcome_bind].
  destruct (projectLink l) as [[[[[kind machine] human] qr]|]|] eqn:Hp;
    try discriminate.
  cbn [mbind outcome_bind].
  destruct (projectLink_inv _ _ _ _ _ Hp) as [-> ->].
  destruct (proto_Marshal machine) as [machineBin|] eqn:Hm; [|discriminate].
  destruct (proto_Marshal l) as [qrBin|] eqn:Hl; [|discriminate].
  destruct qrBaseEncoder as [enc|] eqn:Hq; [|discriminate].
  cbn [deref mbind outcome_bind]. intros H. inversion H; subst.
  exists l, machine, human, machineBin, qrBin, enc. now repeat split.
Qed.

(** X3: [IsValid] and [Marshal] panic on the same records, the group records
    whose [BertyGroup] is set and whose [Group] is nil, and on no other
    input, nil included. *)
Theorem Marshal_panics_iff (link : option BertyLink) :
  (IsValid link = Panics <-> groupWithoutDescriptor link)
  /\ (Marshal link = Panics <-> groupWithoutDescriptor link).
Proof.
  split; [apply IsValid_panics|]. rewrite <- IsValid_panics.
  destruct link as [l|]; [|split; discriminate].
  unfold Marshal. destruct (Kind l) eqn:Hk; cbn [Kind_eqb].
  - unfold IsValid. rewrite Hk. split; discriminate.
  - destruct (IsValid (Some l)) as [[e|]|] eqn:Hv; cbn [mbind outcome_bind];
      [split; discriminate | | split; reflexivity].
    destruct (valid_projects l Hv) as (_ & kind & machine & human & ->).
    cbn [mbind outcome_bind]. destruct qrBaseEncoder_some as [enc ->].
    destruct (proto_Marshal machine), (proto_Marshal l); split; discriminate.
  - destruct (IsValid (Some l)) as [[e|]|] eqn:Hv; cbn [mbind outcome_bind];
      [split; discriminate | | split; reflexivity].
    destruct (valid_projects l Hv) as (_ & kind & machine & human & ->).
    cbn [mbind outcome_bind]. destruct qrBaseEncoder_some as [enc ->].
    destruct (proto_Marshal machine), (proto_Marshal l); split; discriminate.
Qed.

(** X4: whenever [Marshal] returns an error, both strings it returns are
    empty: no link comes with an error. *)
Theorem Marshal_error_empty (link : option BertyLink) (internal web : string)
    (e : error) :
  Marshal link = Returns (internal, web, Some e) ->
  internal = EmptyString /\ web = EmptyString.
Proof.
  unfold Marshal, failMarshal. destruct link as [l|]; [|intros H; now inversion H].
  destruct (Kind_eqb (Kind l) BertyLink_UnknownKind); [intros H; now inversion H|].
  destruct (IsValid (Some l)) as [[e'|]|]; cbn [mbind outcome_bind];
    [intros H; now inversion H | | discriminate].
  destruct (projectLink l) as [[[[[kind machine] human] qr]|]|];
    cbn [mbind outcome_bind]; [ | intros H; now inversion H | discriminate].
  destruct (proto_Marshal machine); [|intros H; now inversion H].
  destruct (proto_Marshal qr); [|intros H; now inversion H].
  destruct qrBaseEncoder; cbn [deref mbind outcome_bind]; discriminate.
Qed.

(** X5: when [Marshal] succeeds, its input is a record [IsValid] accepts; the
    internal form is [BERTY://PB/] followed by a blob and every character of
    it is in the QR alphanumeric set; the web form is the web prefix, the
    tag of the record's kind ([contact] or [group]) and a slash, followed
    by the rest. *)
Theorem Marshal_forms (link : option BertyLink) (internal web : string) :
  Marshal link = Returns (internal, web, None) ->
  exists l blob rest,
    link = Some l /\ IsValid (Some l) = Returns None
    /\ internal = "BERTY://PB/" +:+ blob
    /\ allChars (memberOf qrAlphanumericMode) internal = true
    /\ web = LinkWebPrefix +:+ kindTag (Kind l) +:+ "/" +:+ rest.
Proof.
  intros HM.
  destruct (Marshal_success_inv _ _ _ HM)
    as (l & machine & human & machineBin & qrBin & enc
        & -> & Hv & _ & _ & _ & Hq & -> & ->).
  exists l, (Basex.Encode enc qrBin).
  exists (if (0 <? size human)%nat
          then base58_Encode machineBin +:+ "/" +:+ Values_Encode human
          else base58_Encode machineBin).
  split; [reflexivity|]. split; [exact Hv|]. split; [reflexivity|]. split.
  - change (LinkInternalPrefix +:+ "PB/" +:+ Basex.Encode enc qrBin)
      with ("BERTY://PB/" +:+ Basex.Encode enc qrBin).
    rewrite allChars_app, (qr_Encode_alphanumeric enc qrBin Hq). reflexivity.
  - destruct (0 <? size human)%nat; [|reflexivity].
    now rewrite !append_assoc.
Qed.

(** X6: with collaborators that keep their contracts, [Marshal] returns
    without an error exactly on the records [IsValid] accepts. *)
Theorem Marshal_succeeds_iff_valid `{!EncodeLaws E} (l : BertyLink) :
  (exists internal web, Marshal (Some l) = Returns (internal, web, None))
  <-> IsValid (Some l) = Returns None.
Proof.
  split.
  - intros (internal & web & HM).
    destruct (Marshal_success_inv _ _ _ HM) as (l' & ? & ? & ? & ? & ? & Hl & Hv & _).
    now inversion Hl; subst.
  - intros Hv. destruct (valid_projects l Hv) as (Hk & kind & machine & human & Hp).
    destruct qrBaseEncoder_some as [enc Hq].
    destruct (Marshal_valid l kind machine human enc Hk Hv Hp Hq)
      as (machineBin & qrBin & _ & _ & HM).
    eexists _, _. exact HM.
Qed.

End MarshalProperties.

(** X4 at the group of type account. *)
Lemma Marshal_error_empty_account :
  exists internal web e,
    Marshal (E := Ref.externals) (Some accountGroupLink)
    = Returns (internal, web, Some e)
    /\ internal = EmptyString /\ web = EmptyString.
Proof.
  eexists _, _, _. split; [reflexivity|].
  apply (Marshal_error_empty (E := Ref.externals) (Some accountGroupLink)
           EmptyString EmptyString
           (Wrap ErrInvalidInput (Some (CantShareGroupType GroupTypeAccount)))).
  reflexivity.
Defined.

(** X5 at [alice]. *)
Lemma Marshal_forms_alice :
  exists l blob rest,
    Some alice = Some l /\ IsValid (Some l) = Returns None
    /\ "BERTY://PB/ONAHR$WX6U.6B:$EAGQ4COIU.2C015.L" = "BERTY://PB/" +:+ blob
    /\ allChars (memberOf qrAlphanumericMode)
         "BERTY://PB/ONAHR$WX6U.6B:$EAGQ4COIU.2C015.L" = true
    /\ "https://berty.tech/id#contact/2WAatYBcimc2zdX4wD/name=Alice"
       = LinkWebPrefix +:+ kindTag (Kind l) +:+ "/" +:+ rest.
Proof.
  apply (Marshal_forms (E := Ref.externals) (Some alice)).
  vm_compute. reflexivity.
Defined.

(** X6 at [alice]. *)
Lemma Marshal_succeeds_alice :
  exists internal web,
    Marshal (E := Ref.externals) (Some alice) = Returns (internal, web, None).
Proof.
  apply (Marshal_succeeds_iff_valid (E := Ref.externals) alice). reflexivity.
Defined.

(** ** Both forms of a record, read back *)

Section RoundTrips.
Context {E : Externals} `{!ExternalsLaws E}.

(** A valid group record, taken apart. *)
Lemma valid_group l :
  IsValid (Some l) = Returns None -> Kind l = BertyLink_GroupV1Kind ->
  exists bg g,
    BertyGroup_ l = Some bg /\ Group_ bg = Some g
    /\ GroupType_ g = GroupTypeMultiMember
    /\ projectLink l
       = Returns (Some ("group",
                        mkBertyLink BertyLink_UnknownKind None
                          (Some (mkBertyGroup (Some g) "")),
                        (if negb (isEmptyString (Group_DisplayName bg))
                         then {["name" := [Group_DisplayName bg]]} else ∅),
                        l)).
Proof.
  intros Hv Hk. unfold IsValid in Hv. unfold projectLink. rewrite Hk in *.
  destruct (BertyGroup_ l) as [bg|]; [|discriminate].
  cbn [deref mbind outcome_bind] in Hv |- *.
  destruct (Group_ bg) as [g|] eqn:Hg; [|discriminate].
  cbn [deref mbind outcome_bind] in Hv |- *.
  exists bg, g. split; [reflexivity|]. split; [exact Hg|]. split.
  - destruct (GroupType_ g); try discriminate. reflexivity.
  - rewrite Add_empty. now destruct g.
Qed.

(** Both forms of a valid contact record decode. *)
Lemma contact_decodes l id :
  IsValid (Some l) = Returns None -> Kind l = BertyLink_ContactInviteV1Kind ->
  BertyID_ l = Some id ->
  exists internal web,
    Marshal (Some l) = Returns (internal, web, None)
    /\ UnmarshalLink internal = Returns (Some (canonicalLink l), None)
    /\ UnmarshalLink web
       = Returns (Some (mkBertyLink BertyLink_ContactInviteV1Kind
                          (Some (canonicalID id)) None),
                  None).
Proof.
  intros Hv Hk Hid. destruct (valid_contact l Hv Hk) as (id' & Hid' & Hp).
  rewrite Hid in Hid'. injection Hid' as <-.
  destruct qrBaseEncoder_some as [enc Hq].
  destruct (Marshal_valid l _ _ _ enc ltac:(congruence) Hv Hp Hq)
    as (machineBin & qrBin & Hm & Hl & HM).
  eexists _, _. split; [exact HM|].
  split; [exact (UnmarshalLink_internal enc _ qrBin Hq (proto_roundtrip _ _ Hl))|].
  assert (Hnz : canonicalLink
                  (mkBertyLink BertyLink_UnknownKind
                     (Some (mkBertyID (PublicRendezvousSeed id) (AccountPK id) "")) None)
                <> zeroBertyLink) by discriminate.
  destruct id as [seed pk name]. cbn [ID_DisplayName PublicRendezvousSeed AccountPK] in *.
  destruct name as [|c name]; cbn [isEmptyString negb].
  - rewrite map_size_empty. cbn [Nat.ltb Nat.leb].
    rewrite (UnmarshalLink_web_bare "contact" _ machineBin
               ltac:(discriminate) eq_refl Hm Hnz).
    reflexivity.
  - rewrite map_size_singleton. cbn [Nat.ltb Nat.leb].
    rewrite (UnmarshalLink_web_human "contact" _ machineBin "name" (String c name)
               ltac:(discriminate) eq_refl Hm Hnz).
    unfold mergeHuman. cbn [String.eqb Ascii.eqb Bool.eqb andb].
    rewrite Get_singleton. reflexivity.
Qed.

(** Both forms of a valid group record decode. *)
Lemma group_decodes l bg g :
  IsValid (Some l) = Returns None -> Kind l = BertyLink_GroupV1Kind ->
  BertyGroup_ l = Some bg -> Group_ bg = Some g ->
  exists internal web machineBin,
    Marshal (Some l) = Returns (internal, web, None)
    /\ proto_Marshal
         (mkBertyLink BertyLink_UnknownKind None (Some (mkBertyGroup (Some g) "")))
       = Ok machineBin
    /\ nth 1 (GoStrings.Split
                (GoStrings.Join (tail (GoStrings.Split web "#")) "#") "/")
             EmptyString
       = base58_Encode machineBin
    /\ UnmarshalLink internal = Returns (Some (canonicalLink l), None)
    /\ UnmarshalLink web
       = Returns (Some (mkBertyLink BertyLink_GroupV1Kind None
                          (Some (canonicalBertyGroup bg))), None).
Proof.
  intros Hv Hk Hbg Hg.
  destruct (valid_group l Hv Hk) as (bg' & g' & Hbg' & Hg' & _ & Hp).
  rewrite Hbg in Hbg'. injection Hbg' as <-.
  rewrite Hg in Hg'. injection Hg' as <-.
  destruct qrBaseEncoder_some as [enc Hq].
  destruct (Marshal_valid l _ _ _ enc ltac:(congruence) Hv Hp Hq)
    as (machineBin & qrBin & Hm & Hl & HM).
  eexists _, _, machineBin. split; [exact HM|]. split; [exact Hm|].
  assert (Hnz : canonicalLink
                  (mkBertyLink BertyLink_UnknownKind None
                     (Some (mkBertyGroup (Some g) ""))) <> zeroBertyLink)
    by discriminate.
  pose proof (base58_alnum machineBin) as Hb.
  split;
    [|split; [exact (UnmarshalLink_internal enc _ qrBin Hq (proto_roundtrip _ _ Hl))|]].
  - rewrite rawFragment_web.
    destruct (web_parts "group" (base58_Encode machineBin)
                (Values_Encode
                   (if negb (isEmptyString (Group_DisplayName bg))
                    then {["name" := [Group_DisplayName bg]]} else ∅))
                eq_refl Hb) as [H1 H2].
    destruct (0 <? size _)%nat; [rewrite H2 | rewrite H1]; reflexivity.
  - destruct bg as [g0 name]. cbn [Group_ Group_DisplayName] in *. subst g0.
    destruct name as [|c name]; cbn [isEmptyString negb].
    + rewrite map_size_empty. cbn [Nat.ltb Nat.leb].
      rewrite (UnmarshalLink_web_bare "group" _ machineBin
                 ltac:(discriminate) eq_refl Hm Hnz).
      reflexivity.
    + rewrite map_size_singleton. cbn [Nat.ltb Nat.leb].
      rewrite (UnmarshalLink_web_human "group" _ machineBin "name" (String c name)
                 ltac:(discriminate) eq_refl Hm Hnz).
      unfold mergeHuman. cbn [String.eqb Ascii.eqb Bool.eqb andb].
      rewrite Get_singleton. reflexivity.
Qed.

(** X7: for every valid group record, the blob of the web form is the
    base58 text of a record holding the whole group descriptor, its secret
    included, and no display name; [UnmarshalLink] of the web form returns a
    group record with no [BertyID] and with the [BertyGroup] sub-record of
    the input, display name included, every bytes field of length zero read
    back as nil: the same sub-record when it has no such field. *)
Theorem web_roundtrip_group (l : BertyLink) :
  IsValid (Some l) = Returns None ->
  Kind l = BertyLink_GroupV1Kind ->
  exists internal web bg g machineBin,
    BertyGroup_ l = Some bg /\ Group_ bg = Some g
    /\ Marshal (Some l) = Returns (internal, web, None)
    /\ proto_Marshal
         (mkBertyLink BertyLink_UnknownKind None (Some (mkBertyGroup (Some g) "")))
       = Ok machineBin
    /\ nth 1 (GoStrings.Split
                (GoStrings.Join (tail (GoStrings.Split web "#")) "#") "/")
             EmptyString
       = base58_Encode machineBin
    /\ UnmarshalLink web
       = Returns (Some (mkBertyLink BertyLink_GroupV1Kind None
                          (Some (canonicalBertyGroup bg))), None)
    /\ (canonicalBertyGroup bg = bg ->
        UnmarshalLink web
        = Returns (Some (mkBertyLink BertyLink_GroupV1Kind None (Some bg)), None)).
Proof.
  intros Hv Hk. destruct (valid_group l Hv Hk) as (bg & g & Hbg & Hg & _ & _).
  destruct (group_decodes l bg g Hv Hk Hbg Hg)
    as (internal & web & machineBin & HM & Hm & Hblob & _ & HU).
  exists internal, web, bg, g, machineBin.
  split; [exact Hbg|]. split; [exact Hg|]. split; [exact HM|]. split; [exact Hm|].
  split; [exact Hblob|]. split; [exact HU|].
  intros Hx. now rewrite HU, Hx.
Qed.

(** X8: a link made by [BertyID.GetBertyLink] from an id with both keys, or
    by [BertyGroup.GetBertyLink] from a multi-member group, marshals without
    error, and [UnmarshalLink] returns, from the internal form and from the
    web form alike, that link with every bytes field of length zero read
    back as nil: that very link when it has no such field; a link made from
    a nil id or a nil group is rejected with MissingInput. *)
Theorem GetBertyLink_roundtrip :
  (forall id, completeID id ->
     exists internal web,
       Marshal (Some (BertyID_GetBertyLink (Some id)))
       = Returns (internal, web, None)
       /\ UnmarshalLink internal
          = Returns (Some (canonicalLink (BertyID_GetBertyLink (Some id))), None)
       /\ UnmarshalLink web
          = Returns (Some (canonicalLink (BertyID_GetBertyLink (Some id))), None)
       /\ (wireExact (BertyID_GetBertyLink (Some id)) ->
           UnmarshalLink internal
           = Returns (Some (BertyID_GetBertyLink (Some id)), None)
           /\ UnmarshalLink web
              = Returns (Some (BertyID_GetBertyLink (Some id)), None)))
  /\ (forall bg, shareableGroup bg ->
        exists internal web,
          Marshal (Some (BertyGroup_GetBertyLink (Some bg)))
          = Returns (internal, web, None)
          /\ UnmarshalLink internal
             = Returns (Some (canonicalLink (BertyGroup_GetBertyLink (Some bg))), None)
          /\ UnmarshalLink web
             = Returns (Some (canonicalLink (BertyGroup_GetBertyLink (Some bg))), None)
          /\ (wireExact (BertyGroup_GetBertyLink (Some bg)) ->
              UnmarshalLink internal
              = Returns (Some (BertyGroup_GetBertyLink (Some bg)), None)
              /\ UnmarshalLink web
                 = Returns (Some (BertyGroup_GetBertyLink (Some bg)), None)))
  /\ Marshal (Some (BertyID_GetBertyLink None))
     = Returns (EmptyString, EmptyString, Some (Plain ErrMissingInput))
  /\ Marshal (Some (BertyGroup_GetBertyLink None))
     = Returns (EmptyString, EmptyString, Some (Plain ErrMissingInput)).
Proof.
  split; [|split; [|split; reflexivity]].
  - intros id [Hs Hp].
    assert (Hv : IsValid (Some (BertyID_GetBertyLink (Some id))) = Returns None).
    { cbn. destruct (AccountPK id) eqn:Ha, (PublicRendezvousSeed id) eqn:Hb;
        cbn; congruence. }
    destruct (contact_decodes _ id Hv eq_refl eq_refl) as (i & w & HM & Hi & Hw).
    exists i, w. split; [exact HM|]. split; [exact Hi|]. split; [exact Hw|].
    intros Hx. rewrite Hi, Hw. unfold wireExact in Hx.
    split; exact (f_equal (fun x => Returns (Some x, None)) Hx).
  - intros bg (g & Hg & Ht).
    assert (Hv : IsValid (Some (BertyGroup_GetBertyLink (Some bg))) = Returns None).
    { cbn. rewrite Hg. cbn. now rewrite Ht. }
    destruct (group_decodes _ bg g Hv eq_refl eq_refl Hg)
      as (i & w & bin & HM & _ & _ & Hi & Hw).
    exists i, w. split; [exact HM|]. split; [exact Hi|]. split; [exact Hw|].
    intros Hx. rewrite Hi, Hw. unfold wireExact in Hx.
    split; exact (f_equal (fun x => Returns (Some x, None)) Hx).
Qed.

End RoundTrips.

(** X7 at the link of [teamGroup]. *)
Lemma web_roundtrip_team :
  exists internal web bg g machineBin,
    BertyGroup_ (BertyGroup_GetBertyLink (Some teamGroup)) = Some bg
    /\ Group_ bg = Some g
    /\ Marshal (E := Ref.externals) (Some (BertyGroup_GetBertyLink (Some teamGroup)))
       = Returns (internal, web, None)
    /\ proto_Marshal (Externals := Ref.externals)
         (mkBertyLink BertyLink_UnknownKind None (Some (mkBertyGroup (Some g) "")))
       = Ok machineBin
    /\ nth 1 (GoStrings.Split
                (GoStrings.Join (tail (GoStrings.Split web "#")) "#") "/")
             EmptyString
       = base58_Encode (Externals := Ref.externals) machineBin
    /\ UnmarshalLink (E := Ref.externals) web
       = Returns (Some (mkBertyLink BertyLink_GroupV1Kind None
                          (Some (canonicalBertyGroup bg))), None)
    /\ (canonicalBertyGroup bg = bg ->
        UnmarshalLink (E := Ref.externals) web
        = Returns (Some (mkBertyLink BertyLink_GroupV1Kind None (Some bg)), None)).
Proof.
  apply (web_roundtrip_group (E := Ref.externals)
           (BertyGroup_GetBertyLink (Some teamGroup))); reflexivity.
Defined.

(** X8 at the id of [alice] and at [teamGroup], which the wire carries
    unchanged. *)
Lemma GetBertyLink_roundtrip_samples :
  (exists internal web,
     Marshal (E := Ref.externals) (Some alice) = Returns (internal, web, None)
     /\ UnmarshalLink (E := Ref.externals) internal = Returns (Some alice, None)
     /\ UnmarshalLink (E := Ref.externals) web = Returns (Some alice, None))
  /\ (exists internal web,
        Marshal (E := Ref.externals) (Some (BertyGroup_GetBertyLink (Some teamGroup)))
        = Returns (internal, web, None)
        /\ UnmarshalLink (E := Ref.externals) internal
           = Returns (Some (BertyGroup_GetBertyLink (Some teamGroup)), None)
        /\ UnmarshalLink (E := Ref.externals) web
           = Returns (Some (BertyGroup_GetBertyLink (Some teamGroup)), None)).
Proof.
  split.
  - destruct (proj1 (GetBertyLink_roundtrip (E := Ref.externals))
                (mkBertyID (Some [xaa; xbb; xcc]) (Some [x01; x02; x03; x04]) "Alice"))
      as (i & w & HM & _ & _ & Hx); [split; discriminate|].
    exists i, w. split; [exact HM | exact (Hx eq_refl)].
  - destruct (proj1 (proj2 (GetBertyLink_roundtrip (E := Ref.externals))) teamGroup)
      as (i & w & HM & _ & _ & Hx); [eexists; split; reflexivity|].
    exists i, w. split; [exact HM | exact (Hx eq_refl)].
Defined.

(** ** The internal format, input by input *)

Lemma length_ToLower s : String.length (Ref.ToLower s) = String.length s.
Proof. induction s as [|c s IH]; [reflexivity|]. cbn. now rewrite IH. Qed.

Lemma lowerASCII_slash c :
  notSlash (GoStrings.lowerASCII c) = notSlash c.
Proof. each_ascii c; reflexivity. Qed.

Lemma notSlash_ToLower s :
  allChars notSlash (Ref.ToLower s) = allChars notSlash s.
Proof.
  induction s as [|c s IH]; [reflexivity|]. cbn [Ref.ToLower allChars].
  now rewrite lowerASCII_slash, IH.
Qed.

Lemma HasPrefix_length s p :
  GoStrings.HasPrefix s p = true -> (String.length p <= String.length s)%nat.
Proof.
  revert s. induction p as [|c p IH]; intros s H; [cbn; lia|].
  destruct s as [|d s]; [discriminate|]. cbn in H |- *.
  apply andb_true_iff in H as [_ H]. specialize (IH s H). lia.
Qed.

Lemma fillMap_domain runes : forall i (m m' : gmap ascii Z) c v,
  Basex.fillMap runes i m = Some m' -> m' !! c = Some v ->
  m !! c = Some v \/ In c runes.
Proof.
  induction runes as [|r runes IH]; intros i m m' c v Hf Hc; cbn in Hf.
  - inversion Hf; subst. now left.
  - destruct (m !! r) eqn:Hr; [discriminate|].
    destruct (IH _ _ _ _ _ Hf Hc) as [H|H]; [|right; now right].
    destruct (decide (r = c)) as [->|Hne]; [right; now left|].
    left. now rewrite lookup_insert_ne in H.
Qed.

Lemma decodeRunes_foreign e c runes : forall bs,
  In c runes -> Basex.alphabetMap e !! c = None ->
  Basex.decodeRunes e runes bs = Err "Non Base Character".
Proof.
  induction runes as [|r runes IH]; intros bs Hin Hc; [destruct Hin|].
  cbn [Basex.decodeRunes].
  destruct (Basex.alphabetMap e !! r) as [v|] eqn:Hr; [|reflexivity].
  apply IH; [|exact Hc]. destruct Hin as [->|Hin]; [congruence | exact Hin].
Qed.

Lemma qr_Decode_foreign enc blob c :
  qrBaseEncoder = Some enc ->
  In c (list_ascii_of_string blob) -> ~ In c qrAlphabet ->
  Basex.Decode enc blob = Err "Non Base Character".
Proof.
  intros Hq Hin Hc.
  assert (Hmap : Basex.alphabetMap enc !! c = None).
  { destruct (Basex.alphabetMap enc !! c) as [v|] eqn:Hv; [|reflexivity].
    exfalso. apply Hc. unfold qrBaseEncoder, Basex.NewEncoding in Hq.
    destruct (Basex.fillMap _ 0 ∅) as [m|] eqn:Hm; [|discriminate].
    inversion Hq; subst. cbn in Hv.
    destruct (fillMap_domain _ _ _ _ _ _ Hm Hv) as [H|H]; [|exact H].
    rewrite lookup_empty in H. discriminate. }
  unfold Basex.Decode. destruct blob as [|b blob]; [destruct Hin|].
  now rewrite (decodeRunes_foreign enc c _ _ Hin Hmap).
Qed.

Section InternalFormat.
Context {E : Externals} `{!LowerLaws E}.

(** The first steps of [UnmarshalLink] on a prefix that lower-cases to
    [berty://]. *)
Lemma internal_dispatch p rest :
  allChars GoStrings.isASCII p = true -> Ref.ToLower p = "berty://" ->
  UnmarshalLink (p +:+ rest)
  = (let parts := GoStrings.Split rest "/" in
     if (length parts <? 2)%nat
     then failLink (Wrap ErrInvalidInput (Some TooFewParts))
     else
       match parts with
       | [] => Panics
       | part0 :: parts1 =>
         if String.eqb (strings_ToLower part0) "pb" then
           enc ← deref qrBaseEncoder;
           match Basex.Decode enc (GoStrings.Join parts1 "/") with
           | Err msg => failLink (wrapLib msg)
           | Ok qrBin =>
             match proto_Unmarshal qrBin with
             | Err msg => failLink (wrapLib msg)
             | Ok link => Returns (Some link, None)
             end
           end
         else failLink (Wrap ErrInvalidInput (Some (UnsupportedLinkType part0)))
       end).
Proof.
  intros Ha Hp. unfold UnmarshalLink.
  assert (Hlen : String.length p = 8%nat).
  { rewrite <- length_ToLower, Hp. reflexivity. }
  destruct p as [|c p]; [discriminate|]. rewrite append_cons. cbn [isEmptyString].
  rewrite <- append_cons.
  rewrite (ToLower_app (String c p)), (ToLower_ascii_string LinkInternalPrefix), Hp
    by (exact Ha || reflexivity).
  change (Ref.ToLower LinkInternalPrefix) with "berty://".
  rewrite HasPrefix_app. unfold unmarshalInternal.
  change (String.length LinkInternalPrefix) with 8%nat. rewrite <- Hlen.
  rewrite sliceFrom_app. reflexivity.
Qed.

(** X9: the internal prefix and the format tag are matched without regard
    to ASCII case: after any spelling of [BERTY://] and of [PB], the blob of
    bytes that the serializer reads as a record decodes to that record. *)
Theorem UnmarshalLink_internal_any_case (p t : string) (l : BertyLink)
    (bin : list byte) (enc : Basex.Encoding) :
  qrBaseEncoder = Some enc -> proto_Unmarshal bin = Ok l ->
  allChars GoStrings.isASCII p = true -> Ref.ToLower p = "berty://" ->
  allChars GoStrings.isASCII t = true -> Ref.ToLower t = "pb" ->
  UnmarshalLink (p +:+ t +:+ "/" +:+ Basex.Encode enc bin) = Returns (Some l, None).
Proof.
  intros Hq Hbin Hp Hpl Ht Htl. rewrite internal_dispatch by assumption.
  assert (Hns : allChars notSlash t = true).
  { rewrite <- notSlash_ToLower, Htl. reflexivity. }
  change (t +:+ "/" +:+ Basex.Encode enc bin)
    with (t +:+ String "/" (Basex.Encode enc bin)).
  cbn zeta. rewrite Split_app by exact Hns.
  pose proof (Split_nonempty (Basex.Encode enc bin) "/") as Hne.
  pose proof (Join_Split (Basex.Encode enc bin) "/") as HJ.
  destruct (GoStrings.Split (Basex.Encode enc bin) "/") as [|q qs]; [congruence|].
  cbn [length Nat.ltb Nat.leb].
  rewrite (ToLower_ascii_string t Ht), Htl. cbn [String.eqb Ascii.eqb Bool.eqb andb].
  rewrite HJ, Hq. cbn [deref mbind outcome_bind].
  now rewrite (qrBaseEncoder_roundtrip enc Hq), Hbin.
Qed.

(** X10: the blob of the internal format is matched with regard to case and
    to the alphabet: if it holds a character outside the 42 of
    [qrBaseEncoder], a lower-case letter for one, [UnmarshalLink] fails with
    InvalidInput wrapping the codec's error. *)
Theorem UnmarshalLink_foreign_character (blob : string) (c : ascii) :
  In c (list_ascii_of_string blob) -> ~ In c qrAlphabet ->
  UnmarshalLink ("BERTY://PB/" +:+ blob)
  = Returns (None, Some (Wrap ErrInvalidInput
                           (Some (LibraryError "Non Base Character")))).
Proof.
  intros Hin Hc.
  change ("BERTY://PB/" +:+ blob) with ("BERTY://" +:+ "PB" +:+ String "/" blob).
  rewrite internal_dispatch by reflexivity.
  cbn zeta. rewrite Split_app by reflexivity.
  pose proof (Split_nonempty blob "/") as Hne.
  pose proof (Join_Split blob "/") as HJ.
  destruct (GoStrings.Split blob "/") as [|q qs]; [congruence|].
  cbn [length Nat.ltb Nat.leb].
  rewrite (ToLower_ascii_string "PB") by reflexivity.
  change (String.eqb (Ref.ToLower "PB") "pb") with true. cbv iota.
  destruct qrBaseEncoder_some as [enc Hq]. rewrite HJ, Hq.
  cbn [deref mbind outcome_bind].
  now rewrite (qr_Decode_foreign enc blob c Hq Hin Hc).
Qed.

(** X11: after the internal prefix, a text with no slash has fewer than two
    parts and is refused with InvalidInput, the bare tag [PB] included. *)
Theorem UnmarshalLink_too_few_parts (rest : string) :
  allChars notSlash rest = true ->
  UnmarshalLink ("BERTY://" +:+ rest)
  = Returns (None, Some (Wrap ErrInvalidInput (Some TooFewParts))).
Proof.
  intros Hr. rewrite internal_dispatch by reflexivity.
  cbn zeta. now rewrite Split_none by exact Hr.
Qed.

(** X12: after the internal prefix, a first part that does not lower-case
    to [pb] is refused with InvalidInput naming that part, whatever
    follows. *)
Theorem UnmarshalLink_unsupported_type (t rest : string) :
  allChars GoStrings.isASCII t = true -> allChars notSlash t = true ->
  Ref.ToLower t <> "pb" ->
  UnmarshalLink ("BERTY://" +:+ t +:+ "/" +:+ rest)
  = Returns (None, Some (Wrap ErrInvalidInput (Some (UnsupportedLinkType t)))).
Proof.
  intros Ha Hs Ht. rewrite internal_dispatch by reflexivity.
  change (t +:+ "/" +:+ rest) with (t +:+ String "/" rest).
  cbn zeta. rewrite Split_app by exact Hs.
  pose proof (Split_nonempty rest "/") as Hne.
  destruct (GoStrings.Split rest "/") as [|q qs]; [congruence|].
  cbn [length Nat.ltb Nat.leb].
  rewrite (ToLower_ascii_string t Ha).
  destruct (String.eqb_spec (Ref.ToLower t) "pb"); [contradiction | reflexivity].
Qed.

(** X13: on an input made of ASCII bytes [UnmarshalLink] always returns: the
    slice after the prefix and the reads of [parts[0]] and [parts[1]] stay
    in range. *)
Theorem UnmarshalLink_returns_on_ascii (uri : string) :
  allChars GoStrings.isASCII uri = true ->
  exists r, UnmarshalLink uri = Returns r.
Proof.
  intros Ha. unfold UnmarshalLink.
  destruct (isEmptyString uri); [eexists; reflexivity|].
  rewrite (ToLower_ascii_string uri Ha).
  rewrite !(ToLower_ascii_string LinkInternalPrefix),
    !(ToLower_ascii_string LinkWebPrefix) by reflexivity.
  destruct (GoStrings.HasPrefix (Ref.ToLower uri) (Ref.ToLower LinkInternalPrefix))
    eqn:Hint.
  - apply HasPrefix_length in Hint. rewrite !length_ToLower in Hint.
    unfold unmarshalInternal, GoStrings.sliceFrom.
    destruct (Nat.ltb_spec (String.length uri) (String.length LinkInternalPrefix));
      [lia|].
    cbn [mbind outcome_bind].
    set (right := String.substring _ _ uri).
    pose proof (Split_nonempty right "/") as Hne.
    destruct (GoStrings.Split right "/") as [|p0 ps]; [congruence|].
    destruct (length (p0 :: ps) <? 2)%nat; [eexists; reflexivity|].
    destruct (String.eqb (strings_ToLower p0) "pb"); [|eexists; reflexivity].
    destruct qrBaseEncoder_some as [enc ->]. cbn [deref mbind outcome_bind].
    destruct (Basex.Decode enc _); [|eexists; reflexivity].
    destruct (proto_Unmarshal _); eexists; reflexivity.
  - destruct (GoStrings.HasPrefix (Ref.ToLower uri) (Ref.ToLower LinkWebPrefix));
      [|eexists; reflexivity].
    unfold unmarshalWeb.
    destruct (url_Parse uri) as [parsed|]; [|eexists; reflexivity].
    destruct (isEmptyString (Url.Fragment parsed)); [eexists; reflexivity|].
    set (parts := GoStrings.Split _ "/").
    destruct parts as [|p0 [|p1 ps]]; cbn [length Nat.ltb Nat.leb];
      try (eexists; reflexivity).
    destruct (base58_Decode p1); [|eexists; reflexivity].
    destruct (proto_Unmarshal _); [|eexists; reflexivity].
    destruct (if (2 <? length (p0 :: p1 :: ps))%nat then _ else _);
      [|eexists; reflexivity].
    destruct (mergeHuman p0 _ _); eexists; reflexivity.
Qed.

End InternalFormat.

(** X9 at the spelling [BeRtY://Pb/] and the blob of [alice]. *)
Lemma UnmarshalLink_mixed_case_alice :
  exists enc,
    qrBaseEncoder = Some enc
    /\ UnmarshalLink (E := Ref.externals)
         ("BeRtY://" +:+ "Pb" +:+ "/" +:+ Basex.Encode enc (Ref.putBertyLink alice))
       = Returns (Some alice, None).
Proof.
  destruct qrBaseEncoder_some as [enc Hq]. exists enc. split; [exact Hq|].
  apply (UnmarshalLink_internal_any_case (E := Ref.externals)
           "BeRtY://" "Pb" alice (Ref.putBertyLink alice) enc);
    [exact Hq | vm_compute; reflexivity | reflexivity | reflexivity | reflexivity
    | reflexivity].
Defined.

(** X10 at a lower-case blob. *)
Lemma UnmarshalLink_lower_case_blob :
  UnmarshalLink (E := Ref.externals) ("BERTY://PB/" +:+ "onahr")
  = Returns (None, Some (Wrap ErrInvalidInput
                           (Some (LibraryError "Non Base Character")))).
Proof.
  apply (UnmarshalLink_foreign_character (E := Ref.externals) "onahr" "o").
  - left. reflexivity.
  - intros H. apply memberOf_In in H. discriminate H.
Defined.

(** X11 at the bare tag. *)
Lemma UnmarshalLink_bare_tag :
  UnmarshalLink (E := Ref.externals) ("BERTY://" +:+ "PB")
  = Returns (None, Some (Wrap ErrInvalidInput (Some TooFewParts))).
Proof.
  apply (UnmarshalLink_too_few_parts (E := Ref.externals) "PB"). reflexivity.
Defined.

(** X12 at the tag [XY]. *)
Lemma UnmarshalLink_tag_XY :
  UnmarshalLink (E := Ref.externals) ("BERTY://" +:+ "XY" +:+ "/" +:+ "ABC")
  = Returns (None, Some (Wrap ErrInvalidInput (Some (UnsupportedLinkType "XY")))).
Proof.
  apply (UnmarshalLink_unsupported_type (E := Ref.externals) "XY" "ABC");
    [reflexivity | reflexivity | discriminate].
Defined.

(** X13 at the bare prefix. *)
Lemma UnmarshalLink_returns_on_prefix :
  exists r, UnmarshalLink (E := Ref.externals) "berty://" = Returns r.
Proof.
  apply (UnmarshalLink_returns_on_ascii (E := Ref.externals) "berty://").
  reflexivity.
Defined.

(** ** The web format, input by input *)

Section WebFormat.
Context {E : Externals}.

Lemma UnmarshalLink_web_steps uri tag link human :
  webInput uri tag link human ->
  UnmarshalLink uri = merged (mergeHuman tag link human).
Proof.
  intros (Hne & Hint & Hweb & parsed & blob & rest & machineBin
          & Hparse & Hfrag & Hparts & Hblob & Hlink & Hhuman).
  unfold UnmarshalLink. destruct uri; [congruence|]. cbn [isEmptyString].
  rewrite Hint, Hweb. unfold unmarshalWeb. rewrite Hparse.
  destruct (Url.Fragment parsed); [congruence|]. cbn [isEmptyString].
  rewrite Hparts. cbn [length Nat.ltb Nat.leb]. rewrite Hblob, Hlink.
  destruct rest as [|part parts]; cbn [length Nat.ltb Nat.leb].
  - injection Hhuman as <-. reflexivity.
  - rewrite Hhuman. reflexivity.
Qed.

(** X14: in the web format the kind tag is matched exactly: when every
    decoding step has succeeded and the tag is neither [contact] nor
    [group], a capitalised [Contact] for one, [UnmarshalLink] returns
    InvalidInput and no record. *)
Theorem UnmarshalLink_unknown_tag (uri tag : string) (link : BertyLink)
    (human : Url.Values) :
  webInput uri tag link human ->
  tag <> "contact" -> tag <> "group" ->
  UnmarshalLink uri = Returns (None, Some (Plain ErrInvalidInput)).
Proof.
  intros Hin Hc Hg. rewrite (UnmarshalLink_web_steps _ _ _ _ Hin).
  unfold mergeHuman.
  destruct (String.eqb_spec tag "contact"); [contradiction|].
  destruct (String.eqb_spec tag "group"); [contradiction|]. reflexivity.
Qed.

(** X15: the web format is decoded without a validity check, and it can
    build the record [IsValid] panics on: with the tag [group] and a blob
    whose record has no group descriptor, [UnmarshalLink] returns without
    error a group record on which [IsValid], [IsGroup] and [Marshal]
    panic. *)
Theorem UnmarshalLink_group_without_descriptor (uri : string) (link : BertyLink)
    (human : Url.Values) :
  webInput uri "group" link human ->
  Group_ (default zeroBertyGroup (BertyGroup_ link)) = None ->
  exists r,
    UnmarshalLink uri = Returns (Some r, None)
    /\ Kind r = BertyLink_GroupV1Kind
    /\ IsValid (Some r) = Panics
    /\ IsGroup (Some r) = Panics
    /\ Marshal (Some r) = Panics.
Proof.
  intros Hin Hg. rewrite (UnmarshalLink_web_steps _ _ _ _ Hin).
  unfold mergeHuman. cbn [String.eqb Ascii.eqb Bool.eqb andb].
  destruct (default zeroBertyGroup (BertyGroup_ link)) as [g name].
  cbn [Group_ Group_DisplayName] in *. subst g.
  destruct (negb (isEmptyString (Url.Get human "name")) && isEmptyString name);
    eexists; (split; [reflexivity|]); repeat split.
Qed.

(** X16: with the tag [contact] and a blob whose record lacks a key,
    [UnmarshalLink] returns without error a contact record that [IsValid]
    rejects with MissingInput and on which [IsContact] is false. *)
Theorem UnmarshalLink_contact_without_keys (uri : string) (link : BertyLink)
    (human : Url.Values) :
  webInput uri "contact" link human ->
  ~ completeID (default zeroBertyID (BertyID_ link)) ->
  exists r,
    UnmarshalLink uri = Returns (Some r, None)
    /\ Kind r = BertyLink_ContactInviteV1Kind
    /\ IsValid (Some r) = Returns (Some (Plain ErrMissingInput))
    /\ IsContact (Some r) = Returns false.
Proof.
  intros Hin Hk. rewrite (UnmarshalLink_web_steps _ _ _ _ Hin).
  unfold mergeHuman. cbn [String.eqb Ascii.eqb Bool.eqb andb].
  destruct (default zeroBertyID (BertyID_ link)) as [seed pk name].
  unfold completeID in Hk. cbn [ID_DisplayName PublicRendezvousSeed AccountPK] in *.
  assert (Hnil : isNil pk || isNil seed = true).
  { destruct pk, seed; try reflexivity. exfalso. apply Hk. split; discriminate. }
  destruct (negb (isEmptyString (Url.Get human "name")) && isEmptyString name);
    eexists; (split; [reflexivity|]); (split; [reflexivity|]);
    unfold IsContact, IsValid; cbn; rewrite Hnil; split; reflexivity.
Qed.

End WebFormat.

Lemma webInput_ref tag blob machine :
  allChars GoStrings.isASCII (LinkWebPrefix +:+ tag +:+ "/" +:+ blob) = true ->
  Ref.Parse (LinkWebPrefix +:+ tag +:+ "/" +:+ blob)
  = Ok (Url.mkURL (tag +:+ "/" +:+ blob)) ->
  GoStrings.Split (tag +:+ "/" +:+ blob) "/" = [tag; blob] ->
  Ref.base58Decode blob = Ok (Ref.putBertyLink machine) ->
  canonicalLink machine = machine ->
  webInput (E := Ref.externals) (LinkWebPrefix +:+ tag +:+ "/" +:+ blob) tag
    machine ∅.
Proof.
  intros Ha Hparse Hsplit Hblob Hx. unfold webInput.
  destruct (web_prefix_matches (E := Ref.externals) (tag +:+ "/" +:+ blob))
    as [Hint Hweb].
  split; [discriminate|]. split; [exact Hint|]. split; [exact Hweb|].
  exists (Url.mkURL (tag +:+ "/" +:+ blob)), blob, [], (Ref.putBertyLink machine).
  split; [exact Hparse|]. split; [destruct tag; discriminate|].
  split; [now rewrite rawFragment_web|]. split; [exact Hblob|].
  split; [|reflexivity]. cbn. unfold Ref.protoUnmarshal.
  now rewrite getBertyLink_putBertyLink, Hx.
Qed.

(** X14 at a capitalised tag. *)
Lemma UnmarshalLink_capitalised_tag :
  UnmarshalLink (E := Ref.externals)
    "https://berty.tech/id#Contact/2WAatRf8pyXWEju1Z3"
  = Returns (None, Some (Plain ErrInvalidInput)).
Proof.
  apply (UnmarshalLink_unknown_tag (E := Ref.externals)
           "https://berty.tech/id#Contact/2WAatRf8pyXWEju1Z3" "Contact"
           bobMachine ∅);
    [ apply (webInput_ref "Contact" "2WAatRf8pyXWEju1Z3" bobMachine);
      vm_compute; reflexivity
    | discriminate | discriminate ].
Defined.

(** X15 at the tag [group] before the blob of a contact. *)
Lemma UnmarshalLink_group_tag_on_contact_blob :
  exists r,
    UnmarshalLink (E := Ref.externals)
      "https://berty.tech/id#group/2WAatRf8pyXWEju1Z3"
    = Returns (Some r, None)
    /\ Kind r = BertyLink_GroupV1Kind
    /\ IsValid (Some r) = Panics
    /\ IsGroup (Some r) = Panics
    /\ Marshal (E := Ref.externals) (Some r) = Panics.
Proof.
  apply (UnmarshalLink_group_without_descriptor (E := Ref.externals)
           "https://berty.tech/id#group/2WAatRf8pyXWEju1Z3" bobMachine ∅);
    [ apply (webInput_ref "group" "2WAatRf8pyXWEju1Z3" bobMachine);
      vm_compute; reflexivity
    | reflexivity ].
Defined.

(** X16 at the tag [contact] before the blob of a group. *)
Lemma UnmarshalLink_contact_tag_on_group_blob :
  exists r,
    UnmarshalLink (E := Ref.externals)
      "https://berty.tech/id#contact/VW1cEfig2pWuWfoQ"
    = Returns (Some r, None)
    /\ Kind r = BertyLink_ContactInviteV1Kind
    /\ IsValid (Some r) = Returns (Some (Plain ErrMissingInput))
    /\ IsContact (Some r) = Returns false.
Proof.
  apply (UnmarshalLink_contact_without_keys (E := Ref.externals)
           "https://berty.tech/id#contact/VW1cEfig2pWuWfoQ"
           (mkBertyLink BertyLink_UnknownKind None
              (Some (mkBertyGroup
                       (Some (mkGroup (Some [x01]) (Some [x02]) None
                                      GroupTypeMultiMember None)) "")))
           ∅);
    [ apply (webInput_ref "contact" "VW1cEfig2pWuWfoQ");
      vm_compute; reflexivity
    | intros [H _]; apply H; reflexivity ].
Defined.

(** ** The raw fragment and the QR codec *)

(** X17: the raw fragment [UnmarshalLink] rebuilds from the pieces of the
    URI around [#] is the whole text after the first [#], further [#]
    included, and is empty when the URI has none. *)
Theorem rawFragment_after_first_hash (before after : string) :
  allChars (fun c => negb (Ascii.eqb c "#")) before = true ->
  GoStrings.Join (tail (GoStrings.Split (before +:+ String "#" after) "#")) "#"
  = after
  /\ GoStrings.Join (tail (GoStrings.Split before "#")) "#" = EmptyString.
Proof.
  intros Hb. split.
  - rewrite Split_app by exact Hb. cbn [tail]. apply Join_Split.
  - now rewrite Split_none by exact Hb.
Qed.

(** X17 at a fragment that holds a second [#]. *)
Lemma rawFragment_second_hash :
  GoStrings.Join
    (tail (GoStrings.Split ("https://berty.tech/id" +:+ String "#" "contact/a#b") "#"))
    "#"
  = "contact/a#b"
  /\ GoStrings.Join (tail (GoStrings.Split "https://berty.tech/id" "#")) "#"
     = EmptyString.
Proof.
  apply (rawFragment_after_first_hash "https://berty.tech/id" "contact/a#b").
  reflexivity.
Defined.

(** X18: [qrBaseEncoder] decodes what it encodes, for every byte string,
    leading zero bytes and the empty string included; the text it produces
    holds characters of its 42-character alphabet only, and is empty for the
    empty byte string only. *)
Theorem qrBaseEncoder_codec (enc : Basex.Encoding) (bin : list byte) :
  qrBaseEncoder = Some enc ->
  Basex.Decode enc (Basex.Encode enc bin) = Ok bin
  /\ Forall (fun c => In c qrAlphabet)
       (list_ascii_of_string (Basex.Encode enc bin))
  /\ (Basex.Encode enc bin = EmptyString <-> bin = []).
Proof.
  intros Hq. destruct (qrBaseEncoder_symbols enc Hq) as [Ha Hb].
  pose proof (qrBaseEncoder_roundtrip enc Hq bin) as Hrt.
  split; [exact Hrt|]. split.
  - unfold qrAlphabet. rewrite <- Ha.
    apply (Encode_alphabet enc ltac:(lia) bin). rewrite Ha, Hb. reflexivity.
  - split; [|intros ->; reflexivity].
    intros He. rewrite He in Hrt. cbn in Hrt. congruence.
Qed.

(** X18 at a byte string with two leading zero bytes. *)
Lemma qrBaseEncoder_codec_zeros :
  exists enc,
    qrBaseEncoder = Some enc
    /\ Basex.Decode enc (Basex.Encode enc [x00; x00; x2a]) = Ok [x00; x00; x2a]
    /\ Forall (fun c => In c qrAlphabet)
         (list_ascii_of_string (Basex.Encode enc [x00; x00; x2a]))
    /\ (Basex.Encode enc [x00; x00; x2a] = EmptyString <-> [x00; x00; x2a] = []).
Proof.
  destruct qrBaseEncoder_some as [enc Hq]. exists enc. split; [exact Hq|].
  apply (qrBaseEncoder_codec enc [x00; x00; x2a] Hq).
Defined.
